(** * A registration and login service: upload filter, schema migration,
      and the three request handlers of [server.js]

    The development follows [server.js] top to bottom:
    - [Upload]: the multer configuration ([storage.filename], [fileFilter],
      the 10 MiB limit) and the [upload.fields] middleware that runs them;
    - [Schema]: [checkAndAddColumns] over the connection's query queue;
    - [Handlers]: the [users] table and the [/register], [/login] and
      [/dashboard] handlers.

    What the libraries do (multer, the MySQL server, bcrypt) is not in the
    source file.  The parts the handlers rely on are modelled as the
    libraries document them, and each such place says so; what a library
    does with a value it was not made for is left to a parameter. *)

From Stdlib Require Import ZArith QArith Ascii String.
From stdpp Require Import base option list strings gmap pretty.

Local Open Scope string_scope.
Local Open Scope list_scope.
Local Open Scope Z_scope.

(** ** The values of a request *)

(** A value of [req.body]: what [JSON.parse] gives for a JSON body, and a
    text, an array or an object for a multipart one.  A field that is not
    there reads as [undefined]. *)
#[warnings="-register-all"] Inductive js :=
  | JUndefined
  | JNull
  | JBool (b : bool)
  | JNum (q : Q)
  | JText (s : string)
  | JList (l : list js)
  | JDict (o : list (string * js)).

(** [req.body.name] *)
Definition field (body : gmap string js) (name : string) : js :=
  default JUndefined (body !! name).

(** [!v] is [negb (js_truthy v)]: undefined, null, false, 0 and the empty
    text are falsy, every array and object is truthy. *)
Definition js_truthy (v : js) : bool :=
  match v with
  | JUndefined | JNull => false
  | JBool b => b
  | JNum q => negb (Qeq_bool q 0)
  | JText s => negb (String.eqb s "")
  | JList _ | JDict _ => true
  end.

(** ** The upload handler *)

Module Upload.

(** A file part as multer hands it to [fileFilter] and [storage.filename],
    with the number of bytes the part carries. *)
Record file := {
  fieldname : string;
  originalname : string;
  mimetype : string;
  bytes : Z
}.

(** [cb(null, true)] or [cb(new Error(msg), false)]. *)
Inductive verdict :=
  | Accept
  | Refuse (message : string).

Definition fileFilter (f : file) : verdict :=
  if String.eqb (fieldname f) "image" && String.prefix "image/" (mimetype f)
  then Accept
  else if String.eqb (fieldname f) "cv"
          && String.eqb (mimetype f) "application/pdf"
  then Accept
  else Refuse "Invalid file type".

(** The three arms of [storage.filename]. *)
Inductive naming :=
  | ProfileName
  | CvName
  | FieldName.

Definition filename_arm (f : file) : naming :=
  if String.eqb (fieldname f) "image" then ProfileName
  else if String.eqb (fieldname f) "cv" then CvName
  else FieldName.

(** [Date.now() + '-' + Math.round(Math.random() * 1E9)]: both numbers are
    integers by then and print in decimal. *)
Definition uniqueSuffix (now random : Z) : string :=
  pretty now +:+ "-" +:+ pretty random.

Section Filename.
(** [path.extname] is Node's; nothing below depends on what it returns. *)
Variable extname : string → string.

Definition filename (now random : Z) (f : file) : string :=
  match filename_arm f with
  | ProfileName =>
      "profile-" +:+ uniqueSuffix now random +:+ extname (originalname f)
  | CvName =>
      "cv-" +:+ uniqueSuffix now random +:+ extname (originalname f)
  | FieldName =>
      fieldname f +:+ "-" +:+ uniqueSuffix now random
        +:+ extname (originalname f)
  end.
End Filename.

(** [limits.fileSize] *)
Definition fileSize : Z := 10 * 1024 * 1024.

(** *** The middleware [upload.fields([{name:'image', maxCount:1},
        {name:'cv', maxCount:1}])]

    This part is multer's, on busboy.  The parts of the request are taken
    in their order.  A text part whose value is longer than busboy's limit
    ends the request with [LIMIT_FIELD_VALUE]; the limit is busboy's
    default, 1 MiB, since [limits] sets none; otherwise multer appends the
    value to [req.body] with the append-field package.  For a file part
    multer first counts the part against [maxCount] of its field (a field
    that was not declared has no count left) and fails with
    [LIMIT_UNEXPECTED_FILE]; then it calls [fileFilter], whose error ends
    the request; then the disk storage calls [filename] and streams the
    part to disk, and a part longer than [limits.fileSize] ends the
    request with [LIMIT_FILE_SIZE].  On the first error multer calls
    [next(err)]: Express answers and the route handler is not called.
    A request that is not multipart is passed on as it came, with no
    [req.files]. *)

Inductive upload_error :=
  | LIMIT_UNEXPECTED_FILE (field : string)
  | LIMIT_FILE_SIZE (field : string)
  | LIMIT_FIELD_VALUE (field : string)
  | FilterError (message : string).

(** busboy's default for the value of a text part, in bytes. *)
Definition fieldSize : Z := 1024 * 1024.

(** An entry of [req.files[field]]. *)
Record stored := {
  part : file;
  destination : string;
  stored_as : string
}.

(** A part of a multipart form: a text part, with its name and value, or a
    file part, one that comes with a file name (multer passes over a file
    part that has none). *)
Inductive item :=
  | Text (name value : string)
  | File (f : file).

(** A multipart form: its parts in the order they arrive. *)
Record form := { parts : list item }.

(** The file parts of a form, and its text parts, in their order. *)
Definition uploads (m : form) : list file :=
  omap (λ p, match p with File f => Some f | Text _ _ => None end) (parts m).

Definition fields (m : form) : list (string * string) :=
  omap (λ p, match p with Text name value => Some (name, value)
                     | File _ => None end) (parts m).

(** What the handler receives: [req.body] and [req.files].  [req.files] is
    undefined when the request was not multipart; multer never leaves an
    empty array in it, so an array is its first entry and the rest. *)
Record request := {
  body : gmap string js;
  files : option (gmap string (stored * list stored))
}.

Definition declared : gmap string nat := {[ "image" := 1%nat; "cv" := 1%nat ]}.

Definition wrappedFileFilter (filesLeft : gmap string nat) (f : file)
  : upload_error + gmap string nat :=
  match filesLeft !! fieldname f with
  | Some (S more) =>
      match fileFilter f with
      | Accept => inr (<[fieldname f := more]> filesLeft)
      | Refuse message => inl (FilterError message)
      end
  | _ => inl (LIMIT_UNEXPECTED_FILE (fieldname f))
  end.

Definition appendFile (fs : gmap string (stored * list stored)) (s : stored)
  : gmap string (stored * list stored) :=
  match fs !! fieldname (part s) with
  | Some (first, rest) => <[fieldname (part s) := (first, rest ++ [s])]> fs
  | None => <[fieldname (part s) := (s, [])]> fs
  end.

Section Middleware.
Variable extname : string → string.
(** [appendField(req.body, name, value)] of the append-field package: a
    first value under a plain name is kept as a text, a repeated name
    gives an array, a name with brackets an array or an object. *)
Variable appendField : gmap string js → string → string → gmap string js.
(** [Date.now()] and [Math.round(Math.random() * 1E9)] at the n-th call
    of [storage.filename]. *)
Variable clock : nat → Z.
Variable random : nat → Z.

(** Returns the calls of [storage.filename] that were made, oldest first,
    with the name each produced, and how the parsing ended. *)
Fixpoint handleParts (n : nat) (filesLeft : gmap string nat)
    (body : gmap string js) (fs : gmap string (stored * list stored))
    (ps : list item)
  : list (file * string)
    * (upload_error + gmap string js * gmap string (stored * list stored)) :=
  match ps with
  | [] => ([], inr (body, fs))
  | Text name value :: ps' =>
      if fieldSize <? Z.of_nat (String.length value)
      then ([], inl (LIMIT_FIELD_VALUE name))
      else handleParts n filesLeft (appendField body name value) fs ps'
  | File f :: ps' =>
      match wrappedFileFilter filesLeft f with
      | inl e => ([], inl e)
      | inr filesLeft' =>
          let name := filename extname (clock n) (random n) f in
          if fileSize <? bytes f
          then ([(f, name)], inl (LIMIT_FILE_SIZE (fieldname f)))
          else
            let s := {| part := f; destination := "uploads/";
                        stored_as := name |} in
            let '(calls, ending) :=
              handleParts (S n) filesLeft' body (appendFile fs s) ps' in
            ((f, name) :: calls, ending)
      end
  end.

Definition upload_fields (m : form)
  : list (file * string) * (upload_error + request) :=
  let '(calls, ending) := handleParts 0 declared ∅ ∅ (parts m) in
  (calls,
   match ending with
   | inl e => inl e
   | inr (body, fs) => inr {| body := body; files := Some fs |}
   end).
End Middleware.

End Upload.

(** ** The schema provisioner *)

Module Schema.

(** The two statements [checkAndAddColumns] sends. *)
Inductive query :=
  | CountColumn (column : string)
  | AddColumn (column dataType : string).

(** The shared connection [db], as far as the migration uses it: the
    columns of [user_registration.users], the queries handed to [db.query]
    that the server has not run yet (the driver runs them one at a time, in
    the order of the calls), all queries handed to [db.query] so far, and
    the console. *)
Record connection := {
  table : list string;
  queue : list query;
  sent : list query;
  console : list string;
  served : nat
}.

Definition db_query (q : query) (c : connection) : connection :=
  {| table := table c; queue := queue c ++ [q]; sent := sent c ++ [q];
     console := console c; served := served c |}.

Definition log (line : string) (c : connection) : connection :=
  {| table := table c; queue := queue c; sent := sent c;
     console := console c ++ [line]; served := served c |}.

Definition columnsToCheck : list string := ["profile_image"; "cv_filename"].

Definition checkAndAddColumns (c : connection) : connection :=
  foldl (λ c column, db_query (CountColumn column) c) c columnsToCheck.

(** [SELECT COUNT( * ) ... AND column_name = '${column}'] on the catalog. *)
Definition count (column : string) (columns : list string) : Z :=
  Z.of_nat (length (filter (λ c, c = column) columns)).

(** The callback of the catalog query, once the server answered [count]. *)
Definition counted (column : string) (n : Z) (c : connection) : connection :=
  if n =? 0 then
    let dataType :=
      if String.eqb column "cv_filename" then "VARCHAR(255)"
      else "VARCHAR(255)" in
    db_query (AddColumn column dataType) c
  else log (column +:+ " column already exists") c.

(** The server takes the oldest query of the queue and the driver calls its
    callback.  [fails n] says that the n-th query the server is given ends
    in an error (the callbacks then log and return).  [ALTER TABLE ... ADD
    COLUMN] of a column the table has is an error of the server. *)
Definition serve (fails : nat → bool) (c : connection) : connection :=
  match queue c with
  | [] => c
  | q :: rest =>
      let c' := {| table := table c; queue := rest; sent := sent c;
                   console := console c; served := S (served c) |} in
      match q with
      | CountColumn column =>
          if fails (served c)
          then log ("Error checking for " +:+ column +:+ " column: ") c'
          else counted column (count column (table c)) c'
      | AddColumn column dataType =>
          if fails (served c) || bool_decide (column ∈ table c)
          then log ("Error adding " +:+ column +:+ " column: ") c'
          else
            log ("Added " +:+ column +:+ " column to users table")
              {| table := table c ++ [column]; queue := rest;
                 sent := sent c; console := console c;
                 served := S (served c) |}
      end
  end.

Fixpoint run (fuel : nat) (fails : nat → bool) (c : connection) : connection :=
  match fuel with
  | O => c
  | S fuel' => run fuel' fails (serve fails c)
  end.

(** A connection on which nothing was asked yet. *)
Definition connect (columns : list string) : connection :=
  {| table := columns; queue := []; sent := []; console := []; served := 0 |}.

(** [checkAndAddColumns()] on a fresh connection, until the queue is empty
    (four steps are enough, see [migrate_drains]). *)
Definition migrate (fails : nat → bool) (columns : list string) : connection :=
  run 4 fails (checkAndAddColumns (connect columns)).

End Schema.

(** ** The start of the server *)

Module Startup.
Import Schema.

(** The statements the callback of [db.connect] sends, each from the
    callback of the one before, and then those of [checkAndAddColumns]. *)
Inductive statement :=
  | CreateDatabase
  | UseDatabase
  | CreateTable
  | Migration (q : query).

(** The columns of the [CREATE TABLE IF NOT EXISTS users] statement. *)
Definition createTableColumns : list string :=
  ["id"; "fullname"; "email"; "password"; "age"; "gender"; "profile_image";
   "cv_filename"; "reg_date"].

(** What a start leaves: the columns of the users table, if there is one,
    the statements that were sent, and the console. *)
Record started := {
  users_table : option (list string);
  statements : list statement;
  lines : list string
}.

(** [db.connect(callback)] and the callbacks nested in it.  [refused] says
    that the connection failed; [fails n] that the n-th statement sent ended
    in an error.  Each callback logs its error and returns, so nothing more
    is sent.  [CREATE TABLE IF NOT EXISTS] leaves a table that is there as
    it is.  The statements of [checkAndAddColumns] come fourth and later. *)
Definition startup (refused : bool) (fails : nat → bool)
    (before : option (list string)) : started :=
  if refused then
    {| users_table := before; statements := [];
       lines := ["Database connection failed: "] |}
  else if fails 0%nat then
    {| users_table := before; statements := [CreateDatabase];
       lines := ["Connected to MySQL database"; "Error creating database: "] |}
  else if fails 1%nat then
    {| users_table := before; statements := [CreateDatabase; UseDatabase];
       lines := ["Connected to MySQL database"; "Error using database: "] |}
  else if fails 2%nat then
    {| users_table := before;
       statements := [CreateDatabase; UseDatabase; CreateTable];
       lines := ["Connected to MySQL database"; "Error creating table: "] |}
  else
    let c := migrate (λ n, fails (3 + n)%nat)
               (default createTableColumns before) in
    {| users_table := Some (table c);
       statements :=
         [CreateDatabase; UseDatabase; CreateTable] ++ (Migration <$> sent c);
       lines :=
         ["Connected to MySQL database"; "Users table ready"] ++ console c |}.

End Startup.

(** ** The user record store and the request handlers *)

Module Handlers.
Import Upload.

(** A value of a row object or of a JSON answer. *)
Inductive value :=
  | Null
  | Num (n : Z)
  | Str (s : string)
  | Date (ms : Z).

(** A row of [users], after the [CREATE TABLE] statement.  [age] and
    [gender] hold the text the driver sent: how the server converts it to
    [INT] and to the [ENUM] is not modelled, and an insert the server
    refuses for such a reason is one of the store's faults below. *)
Record user := {
  id : Z;
  fullname : string;
  email : string;
  password : string;
  age : option string;
  gender : option string;
  profile_image : option string;
  cv_filename : option string;
  reg_date : Z
}.

Record database := {
  users : list user;
  auto_increment : Z
}.

(** The [err] a query callback receives. *)
Record db_error := { code : string }.

(** How the server compares: two texts under the collation of the [email]
    column (the [UNIQUE] index and [WHERE email = ?] use the same), and the
    [id] column with the text bound to [WHERE id = ?].  And what it makes
    of a statement when a bound parameter is not a text (the driver writes
    an array as a list of values and an object as assignments): of the
    insert, an error or the values that reach the columns [fullname],
    [email], [age] and [gender]; of [WHERE email = ?], an error or the
    rows that satisfy it. *)
Class Server := {
  same_text : string → string → bool;
  same_id : Z → string → bool;
  insert_values :
    js → js → string → js → js → option string → option string →
    db_error + (string * string * option string * option string);
  where_email : js → db_error + (user → bool)
}.

(** [bcrypt.hash(data, rounds)], with the salt the library draws made
    explicit, and [bcrypt.compare(data, encrypted)], on texts. *)
Class Bcrypt := {
  bcrypt_hash : string → nat → string → string;
  bcrypt_compare : string → string → bool
}.

(** [await bcrypt.hash(data, rounds)] and [await bcrypt.compare(data,
    encrypted)] on a value of the body: the library rejects the promise
    when [data] is not a text, and the [await] throws. *)
Definition await_hash `{Bcrypt} (data : js) (rounds : nat) (salt : string)
  : option string :=
  match data with
  | JText s => Some (bcrypt_hash s rounds salt)
  | _ => None
  end.

Definition await_compare `{Bcrypt} (data : js) (encrypted : string)
  : option bool :=
  match data with
  | JText s => Some (bcrypt_compare s encrypted)
  | _ => None
  end.

(** What the outside supplies while one request is handled: whether the
    store fails the query for a reason of its own, the salt bcrypt draws,
    the server's clock. *)
Record moment := {
  fault : option db_error;
  salt : string;
  now : Z
}.

Definition nullable (v : option string) : value := from_option Str Null v.

Definition column (name : string) (u : user) : option value :=
  if String.eqb name "id" then Some (Num (id u))
  else if String.eqb name "fullname" then Some (Str (fullname u))
  else if String.eqb name "email" then Some (Str (email u))
  else if String.eqb name "password" then Some (Str (password u))
  else if String.eqb name "age" then Some (nullable (age u))
  else if String.eqb name "gender" then Some (nullable (gender u))
  else if String.eqb name "profile_image" then Some (nullable (profile_image u))
  else if String.eqb name "cv_filename" then Some (nullable (cv_filename u))
  else if String.eqb name "reg_date" then Some (Date (reg_date u))
  else None.

(** The object the driver builds for a row and a list of selected columns. *)
Definition object_of (columns : list string) (u : user) : gmap string value :=
  list_to_map (omap (λ name, pair name <$> column name u) columns).

(** [SELECT *] *)
Definition every_column : list string :=
  ["id"; "fullname"; "email"; "password"; "age"; "gender"; "profile_image";
   "cv_filename"; "reg_date"].


(** The body of an answer, by shape: [{error}], [{message, userId}],
    [{message, user}], [{user}]. *)
Inductive payload :=
  | Error (error : string)
  | Registered (message : string) (userId : Z)
  | LoggedIn (message : string) (user : gmap string value)
  | Profile (user : gmap string value).

Record response := {
  status : Z;
  json : payload
}.

(** [!v] is [negb (truthy v)] for a parameter of the query string, a text
    or undefined. *)
Definition truthy (v : option string) : bool :=
  match v with
  | Some s => negb (String.eqb s "")
  | None => false
  end.


Section Store.
Context `{Server}.

(** [INSERT INTO users (fullname, email, password, age, gender,
    profile_image, cv_filename) VALUES (?, ?, ?, ?, ?, ?, ?)] with texts
    and [NULL]s for values: the answer is [err] or [results.insertId]. *)
Definition insert (w : moment) (fullname email password : string)
    (age gender profileImage cvFile : option string) (db : database)
  : (db_error + Z) * database :=
  match fault w with
  | Some err => (inl err, db)
  | None =>
      if existsb (λ u, same_text (Handlers.email u) email) (users db)
      then (inl {| code := "ER_DUP_ENTRY" |}, db)
      else
        let row := {| id := auto_increment db; fullname := fullname;
                      email := email; password := password; age := age;
                      gender := gender; profile_image := profileImage;
                      cv_filename := cvFile; reg_date := now w |} in
        (inr (auto_increment db),
         {| users := users db ++ [row];
            auto_increment := auto_increment db + 1 |})
  end.

(** A parameter as a value of a column: an undefined or null parameter is
    sent as [NULL], a text as itself. *)
Definition bound (v : js) : option (option string) :=
  match v with
  | JUndefined | JNull => Some None
  | JText s => Some (Some s)
  | _ => None
  end.

(** The values the insert gives the columns [fullname], [email], [age]
    and [gender]: the texts that were bound and [NULL]s, or else what the
    server makes of the statement. *)
Definition values_sent (fullname email : js) (hashedPassword : string)
    (age gender : js) (profileImage cvFile : option string)
  : db_error + (string * string * option string * option string) :=
  match fullname, email, bound age, bound gender with
  | JText fullname, JText email, Some age, Some gender =>
      inr (fullname, email, age, gender)
  | _, _, _, _ =>
      insert_values fullname email hashedPassword age gender profileImage
        cvFile
  end.

(** [db.query(query, [fullname, email, hashedPassword, age, gender,
    profileImage, cvFile], callback)] of the register handler. *)
Definition query_insert (w : moment) (fullname email : js)
    (hashedPassword : string) (age gender : js)
    (profileImage cvFile : option string) (db : database)
  : (db_error + Z) * database :=
  match fault w with
  | Some err => (inl err, db)
  | None =>
      match values_sent fullname email hashedPassword age gender
              profileImage cvFile with
      | inl err => (inl err, db)
      | inr (fullname, email, age, gender) =>
          insert w fullname email hashedPassword age gender profileImage
            cvFile db
      end
  end.

(** [SELECT * FROM users WHERE email = ?] with a text for the email. *)
Definition select_by_email (w : moment) (email : string) (db : database)
  : db_error + list user :=
  match fault w with
  | Some err => inl err
  | None => inr (List.filter (λ u, same_text (Handlers.email u) email) (users db))
  end.

(** [db.query(query, [email], callback)] of the login handler. *)
Definition query_by_email (w : moment) (email : js) (db : database)
  : db_error + list user :=
  match email with
  | JText email => select_by_email w email db
  | _ =>
      match fault w with
      | Some err => inl err
      | None =>
          match where_email email with
          | inl err => inl err
          | inr satisfies => inr (List.filter satisfies (users db))
          end
      end
  end.

End Store.

(** The callback of the insert. *)
Definition inserted (answer : db_error + Z) : response :=
  match answer with
  | inl err =>
      if String.eqb (code err) "ER_DUP_ENTRY"
      then {| status := 400; json := Error "Email already registered" |}
      else {| status := 500; json := Error "Database error" |}
  | inr insertId =>
      {| status := 201;
         json := Registered "User registered successfully" insertId |}
  end.

(** How a request to [app.post('/register', upload.fields(...), handler)]
    ends: the handler answered, or the middleware failed and the handler
    was not called. *)
Inductive ending :=
  | Answered (r : response)
  | Failed (e : upload_error).

Section Routes.
Context `{Server} `{Bcrypt}.

(** The handler of [POST /register].  What throws inside the [try] is
    caught and answered 500 'Server error': the [await] of [bcrypt.hash]
    on a password that is not a text, and the read of [req.files['image']]
    when [req.files] is undefined. *)
Definition register (w : moment) (req : request) (db : database)
  : response * database :=
  let fullname := field (body req) "fullname" in
  let email := field (body req) "email" in
  let password := field (body req) "password" in
  let age := field (body req) "age" in
  let gender := field (body req) "gender" in
  if negb (js_truthy fullname) || negb (js_truthy email)
     || negb (js_truthy password)
  then
    ({| status := 400;
        json := Error "Full name, email, and password are required" |}, db)
  else
    match await_hash password 10 (salt w) with
    | None => ({| status := 500; json := Error "Server error" |}, db)
    | Some hashedPassword =>
        match files req with
        | None => ({| status := 500; json := Error "Server error" |}, db)
        | Some files =>
            let profileImage := (λ a, stored_as a.1) <$> files !! "image" in
            let cvFile := (λ a, stored_as a.1) <$> files !! "cv" in
            let '(answer, db') :=
              query_insert w fullname email hashedPassword age gender
                profileImage cvFile db in
            (inserted answer, db')
        end
    end.

(** The handler of [POST /login]; [body] is [req.body], the parsed JSON
    body.  The [try] holds only the call that sends the statement; the
    answers are given in the callback, an [async] function of its own:
    when [bcrypt.compare] rejects there, on a password that is not a
    text, nothing catches it and the request gets no answer ([None]).
    [res.json] without [res.status] answers 200. *)
Definition login (w : moment) (body : gmap string js) (db : database)
  : option response :=
  let email := field body "email" in
  let password := field body "password" in
  if negb (js_truthy email) || negb (js_truthy password)
  then
    Some {| status := 400; json := Error "Email and password are required" |}
  else
    match query_by_email w email db with
    | inl err => Some {| status := 500; json := Error "Database error" |}
    | inr [] =>
        Some {| status := 401; json := Error "Invalid email or password" |}
    | inr (user :: _) =>
        match await_compare password (Handlers.password user) with
        | None => None
        | Some passwordMatch =>
            if negb passwordMatch
            then
              Some {| status := 401;
                      json := Error "Invalid email or password" |}
            else
              let userWithoutPassword :=
                delete "password" (object_of every_column user) in
              Some {| status := 200;
                      json := LoggedIn "Login successful"
                                userWithoutPassword |}
        end
    end.


(** The route on a multipart request: the handler runs only when the
    middleware did not fail. *)
Definition post_register (extname : string → string)
    (appendField : gmap string js → string → string → gmap string js)
    (clock random : nat → Z) (w : moment) (m : form) (db : database)
  : ending * database :=
  match (upload_fields extname appendField clock random m).2 with
  | inl e => (Failed e, db)
  | inr req =>
      let '(r, db') := register w req db in
      (Answered r, db')
  end.
End Routes.

End Handlers.

(** * Invariants of the migration and data for the examples *)

Import Upload Schema Handlers.
Import Startup.

(** What holds of the connection all along a migration that started on a
    table with the columns [before]: the table has lost none of them, and
    no [ALTER TABLE] was sent for any of them. *)
Definition spares (before : list string) (c : connection) : Prop :=
  before ⊆ table c
  ∧ ∀ column dataType, AddColumn column dataType ∈ sent c → column ∉ before.

(** On a table that has the two columns already: the table is as it was,
    and only catalog queries on its own columns were sent. *)
Definition settled (before : list string) (c : connection) : Prop :=
  table c = before
  ∧ (∀ q, q ∈ sent c → ∃ column, q = CountColumn column ∧ column ∈ before)
  ∧ queue c ⊆ sent c.

(** The work left on the connection: a catalog query may send one more
    statement, an [ALTER TABLE] sends none. *)
Fixpoint backlog (qs : list query) : nat :=
  match qs with
  | [] => 0
  | CountColumn _ :: qs' => 2 + backlog qs'
  | AddColumn _ _ :: qs' => 1 + backlog qs'
  end.

(** The stand-ins used to run the handlers on examples: a server that
    compares texts byte for byte and an id with its decimal numeral,
    refuses an insert with a parameter that is not a text and finds no
    row for such an email; a hash that is readable; and an [appendField]
    that keeps the first value of a name as a text and makes an array of
    a repeated one. *)
Definition example_server : Server :=
  {| same_text := String.eqb;
     same_id := λ i s, String.eqb (pretty i) s;
     insert_values := λ _ _ _ _ _ _ _, inl {| code := "ER_PARSE_ERROR" |};
     where_email := λ _, inr (λ _, false) |}.

Definition example_appendField (body : gmap string js) (name value : string)
  : gmap string js :=
  match body !! name with
  | None => <[name := JText value]> body
  | Some (JList l) => <[name := JList (l ++ [JText value])]> body
  | Some v => <[name := JList [v; JText value]]> body
  end.

Definition example_bcrypt : Bcrypt :=
  {| bcrypt_hash := λ data rounds salt, "$" +:+ salt +:+ "$" +:+ data;
     bcrypt_compare := λ data encrypted,
       match index 1 "$" encrypted with
       | Some n =>
           String.eqb data
             (substring (S n) (String.length encrypted) encrypted)
       | None => false
       end |}.

Definition example_moment : moment :=
  {| fault := None; salt := "N9qo8uLOickgx2ZMRZoMye"; now := 1700000000000 |}.

(** A stored user and a store that holds her, for the examples. *)
Definition ada : user :=
  {| id := 1; fullname := "Ada Lovelace"; email := "ada@example.org";
     password := "$N9qo8uLOickgx2ZMRZoMye$analytical";
     age := Some "36"; gender := Some "female";
     profile_image := Some "profile-1700000000000-42.png";
     cv_filename := None; reg_date := 1700000000000 |}.

Definition one_user : database := {| users := [ada]; auto_increment := 2 |}.

(** ** What the store keeps, and what the migration may still send *)

(** No two rows have the same email under the collation of the column:
    an older row never compares equal to a newer one. *)
Definition distinct_emails `{Server} (rows : list user) : Prop :=
  ∀ i j u v, (i < j)%nat → rows !! i = Some u → rows !! j = Some v →
    same_text (email u) (email v) = false.

(** Every id was handed out by the counter, once. *)
Definition ids_fresh (db : database) : Prop :=
  (∀ u, u ∈ users db → id u < auto_increment db)
  ∧ NoDup (id <$> users db).


(** The answers of a registration that leave the store as it was. *)
Definition refusals : list response :=
  [ {| status := 400;
       json := Error "Full name, email, and password are required" |};
    {| status := 500; json := Error "Server error" |};
    {| status := 400; json := Error "Email already registered" |};
    {| status := 500; json := Error "Database error" |} ].

(** A body as a multipart form with one value per name gives it: fullname
    and email are texts, age and gender are texts or not there. *)
Definition single_texts (body : gmap string js) : bool :=
  match field body "fullname", field body "email",
        bound (field body "age"), bound (field body "gender") with
  | JText _, JText _, Some _, Some _ => true
  | _, _, _, _ => false
  end.

Definition as_text (v : js) : option string :=
  match v with
  | JText s => Some s
  | _ => None
  end.

(** Registration requests handled one after the other. *)
Definition register_all `{Server} `{Bcrypt}
    (requests : list (moment * request)) (db : database) : database :=
  foldl (λ db wr, (register wr.1 wr.2 db).2) db requests.

(** The catalog queries still in the queue: each may send one more
    statement. *)
Fixpoint checks (qs : list query) : nat :=
  match qs with
  | [] => 0
  | CountColumn _ :: qs' => S (checks qs')
  | AddColumn _ _ :: qs' => checks qs'
  end.

(** A statement of the migration on one of the two optional columns. *)
Definition optional (q : query) : Prop :=
  match q with
  | CountColumn column => column ∈ columnsToCheck
  | AddColumn column dataType =>
      column ∈ columnsToCheck ∧ dataType = "VARCHAR(255)"
  end.

(** A text without the character '-', as the decimal numeral of a number
    that is not negative. *)
Fixpoint dashless (s : string) : bool :=
  match s with
  | EmptyString => true
  | String c s' => negb (Ascii.eqb c "-") && dashless s'
  end.

(** The entry of [req.files] for a stored file. *)
Definition kept (extname : string → string) (now random : Z) (f : file)
  : stored :=
  {| part := f; destination := "uploads/";
     stored_as := filename extname now random f |}.

(** * Properties *)

(** ** Strings as JavaScript uses them *)

(** [s.startsWith(p)] is [String.prefix p s]. *)
Lemma startsWith_spec (p s : string) :
  String.prefix p s = true ↔ ∃ rest, s = p +:+ rest.
Proof.
  revert s. induction p as [|c p IH]; intros s.
  - split; [intros _; by exists s | by destruct s].
  - destruct s as [|d s]; cbn.
    + split; [done | intros [rest Hrest]; discriminate].
    + destruct (Ascii.ascii_dec c d) as [->|Hne].
      * rewrite IH. split.
        -- intros [rest ->]. by exists rest.
        -- intros [rest Hrest]. exists rest. by injection Hrest.
      * split; [done | intros [rest Hrest]; injection Hrest; done].
Qed.

(** ** The upload handler *)

Lemma fileFilter_accept (f : file) :
  fileFilter f = Accept ↔
  (fieldname f = "image" ∧ ∃ rest, mimetype f = "image/" +:+ rest)
  ∨ (fieldname f = "cv" ∧ mimetype f = "application/pdf").
Proof.
  unfold fileFilter. rewrite <- startsWith_spec, <- !String.eqb_eq.
  destruct (String.eqb (fieldname f) "image"),
    (String.prefix "image/" (mimetype f)),
    (String.eqb (fieldname f) "cv"),
    (String.eqb (mimetype f) "application/pdf");
    simpl; intuition congruence.
Qed.

Lemma fileFilter_refuse (f : file) :
  fileFilter f ≠ Accept → fileFilter f = Refuse "Invalid file type".
Proof.
  unfold fileFilter.
  destruct (_ && _); [done |]. by destruct (_ && _).
Qed.

Lemma accepted_arm (f : file) :
  fileFilter f = Accept →
  filename_arm f = ProfileName ∨ filename_arm f = CvName.
Proof.
  rewrite fileFilter_accept. unfold filename_arm.
  intros [[-> _]|[-> _]]; [by left | by right].
Qed.

Lemma wrappedFileFilter_passed (filesLeft filesLeft' : gmap string nat)
    (f : file) :
  wrappedFileFilter filesLeft f = inr filesLeft' → fileFilter f = Accept.
Proof.
  unfold wrappedFileFilter.
  destruct (filesLeft !! fieldname f) as [[|more]|]; try done.
  by destruct (fileFilter f).
Qed.

(** The file parts of a form are its parts that are files. *)
Lemma uploads_parts (m : form) (f : file) : f ∈ uploads m ↔ File f ∈ parts m.
Proof.
  unfold uploads. rewrite list_elem_of_omap. split.
  - intros ([name value|g] & Hin & Heq); simplify_eq. done.
  - intros Hin. by exists (File f).
Qed.

Section MiddlewareFacts.
Variable extname : string → string.
Variable appendField : gmap string js → string → string → gmap string js.
Variables clock random : nat → Z.

(** [storage.filename] is called on nothing but what [fileFilter] let
    through. *)
Lemma handleParts_calls (ps : list item) :
  ∀ n filesLeft body fs f name,
    (f, name)
      ∈ (handleParts extname appendField clock random n filesLeft body fs
           ps).1 →
    fileFilter f = Accept
    ∧ ∃ k, name = filename extname (clock k) (random k) f.
Proof.
  induction ps as [|[key value|g] ps IH]; intros n filesLeft body fs f name;
    simpl.
  - by intros ?%elem_of_nil.
  - destruct (fieldSize <? _); simpl; [by intros ?%elem_of_nil | apply IH].
  - destruct (wrappedFileFilter filesLeft g) as [e|filesLeft'] eqn:Hw; simpl.
    + by intros ?%elem_of_nil.
    + apply wrappedFileFilter_passed in Hw.
      destruct (fileSize <? bytes g).
      * simpl. intros Hin%list_elem_of_singleton.
        injection Hin as -> ->. eauto.
      * destruct (handleParts _ _ _ _ _ _ _ _ ps) as [calls ending] eqn:Hrec.
        simpl. intros [Hin|Hin]%elem_of_cons.
        -- injection Hin as -> ->. eauto.
        -- eapply IH. by rewrite Hrec.
Qed.

(** One file part that the filter refuses, or that is too long, fails the
    whole request, wherever it stands among the parts. *)
Lemma handleParts_fails (ps : list item) :
  ∀ n filesLeft body fs f,
    File f ∈ ps →
    fileFilter f ≠ Accept ∨ fileSize < bytes f →
    ∃ e, (handleParts extname appendField clock random n filesLeft body fs
            ps).2 = inl e.
Proof.
  induction ps as [|[key value|g] ps IH]; intros n filesLeft body fs f Hin Hbad.
  - by apply elem_of_nil in Hin.
  - simpl. destruct (fieldSize <? _); [by eexists |].
    apply elem_of_cons in Hin as [Hin|Hin]; [done |]. by eapply IH.
  - simpl.
    destruct (wrappedFileFilter filesLeft g) as [e|filesLeft'] eqn:Hw;
      [by eexists |].
    destruct (Z.ltb_spec fileSize (bytes g)) as [Hlong|Hshort];
      [by eexists |].
    destruct (handleParts _ _ _ _ _ _ _ _ ps) as [calls ending] eqn:Hrec.
    apply elem_of_cons in Hin as [[= ->]|Hin].
    + apply wrappedFileFilter_passed in Hw.
      destruct Hbad as [Hbad|Hbad]; [done | lia].
    + destruct (IH (S n) filesLeft' body
                  (appendFile fs {| part := g; destination := "uploads/";
                     stored_as := filename extname (clock n) (random n) g |})
                  f Hin Hbad) as [e He].
      rewrite Hrec in He. by exists e.
Qed.

Lemma upload_fields_fails (m : form) (f : file) :
  f ∈ uploads m →
  fileFilter f ≠ Accept ∨ fileSize < bytes f →
  ∃ e, (upload_fields extname appendField clock random m).2 = inl e.
Proof.
  intros Hin%uploads_parts Hbad. unfold upload_fields.
  destruct (handleParts_fails (parts m) 0%nat declared ∅ ∅ f Hin Hbad)
    as [e He].
  destruct (handleParts _ _ _ _ _ _ _ _ _) as [calls ending].
  simpl in *. subst ending. by exists e.
Qed.

(** Text parts within the limit go into the body, and the parsing goes on
    with what follows them. *)
Lemma handleParts_texts (texts : list (string * string)) (ps : list item) :
  ∀ n filesLeft body fs,
    Forall (λ nv, Z.of_nat (String.length nv.2) < fieldSize) texts →
    handleParts extname appendField clock random n filesLeft body fs
      (((λ nv, Text nv.1 nv.2) <$> texts) ++ ps)
    = handleParts extname appendField clock random n filesLeft
        (foldl (λ b nv, appendField b nv.1 nv.2) body texts) fs ps.
Proof.
  induction texts as [|[key value] texts IH]; intros n filesLeft body fs Hall;
    [done |].
  apply Forall_cons in Hall as [Hshort Hall]. simpl in *.
  destruct (Z.ltb_spec fieldSize (Z.of_nat (String.length value))) as [?|_];
    [lia |].
  by apply IH.
Qed.
End MiddlewareFacts.

Lemma upload_fields_calls (extname : string → string)
    (appendField : gmap string js → string → string → gmap string js)
    (clock random : nat → Z) (m : form) (f : file) (name : string) :
  (f, name) ∈ (upload_fields extname appendField clock random m).1 →
  fileFilter f = Accept ∧ ∃ k, name = filename extname (clock k) (random k) f.
Proof.
  unfold upload_fields. intros Hin.
  apply (handleParts_calls extname appendField clock random (parts m) 0%nat
           declared ∅ ∅).
  by destruct (handleParts _ _ _ _ _ _ _ _ _).
Qed.

Lemma post_register_fails `{Server} `{Bcrypt} (extname : string → string)
    (appendField : gmap string js → string → string → gmap string js)
    (clock random : nat → Z) (w : moment) (m : form) (db : database)
    (f : file) :
  f ∈ uploads m →
  fileFilter f ≠ Accept ∨ fileSize < bytes f →
  ∃ e, post_register extname appendField clock random w m db = (Failed e, db).
Proof.
  intros Hin Hbad. unfold post_register.
  destruct (upload_fields_fails extname appendField clock random m f Hin Hbad)
    as [e ->].
  by exists e.
Qed.

(** C7: [fileFilter] accepts a file part iff its field name is 'image' and
    its MIME type begins with 'image/', or its field name is 'cv' and its
    MIME type is exactly 'application/pdf'; any other part is refused with
    an error, and a request that carries such a part ends in the
    middleware's error, before the register handler runs and with the
    store untouched. *)
Theorem fileFilter_accepts_iff `{Server} `{Bcrypt}
    (extname : string → string)
    (appendField : gmap string js → string → string → gmap string js)
    (clock random : nat → Z) (f : file) :
  (fileFilter f = Accept ↔
     (fieldname f = "image" ∧ ∃ rest, mimetype f = "image/" +:+ rest)
     ∨ (fieldname f = "cv" ∧ mimetype f = "application/pdf"))
  ∧ (¬ ((fieldname f = "image" ∧ ∃ rest, mimetype f = "image/" +:+ rest)
        ∨ (fieldname f = "cv" ∧ mimetype f = "application/pdf")) →
     fileFilter f = Refuse "Invalid file type"
     ∧ ∀ w m db, f ∈ uploads m →
         ∃ e, post_register extname appendField clock random w m db
              = (Failed e, db)).
Proof.
  split; [apply fileFilter_accept |].
  rewrite <- fileFilter_accept. intros Hno. split.
  - by apply fileFilter_refuse.
  - intros w m db Hin. eapply post_register_fails; eauto.
Qed.

Lemma fileFilter_accepts_iff_witness :
  let f := {| fieldname := "image"; originalname := "cv.pdf";
              mimetype := "application/pdf"; bytes := 2048 |} in
  let m := {| parts := [Text "fullname" "Ada";
                        Text "email" "ada@example.org";
                        Text "password" "secret"; File f] |} in
  fileFilter f = Refuse "Invalid file type"
  ∧ ∃ e, @post_register example_server example_bcrypt (λ _, ".pdf")
           example_appendField (λ _, 1700000000000) (λ _, 42)
           example_moment m {| users := []; auto_increment := 1 |}
         = (Failed e, {| users := []; auto_increment := 1 |}).
Proof.
  intros f m.
  destruct (@fileFilter_accepts_iff example_server example_bcrypt
              (λ _, ".pdf") example_appendField (λ _, 1700000000000)
              (λ _, 42) f) as [_ Hrefused].
  destruct Hrefused as [Hfilter Hroute].
  - intros [[_ [rest Hrest]]|[Hcv _]]; discriminate.
  - split; [exact Hfilter |]. apply Hroute. apply uploads_parts.
    apply list_elem_of_In. simpl. tauto.
Defined.

(** C8: the limit is 10 * 1024 * 1024 bytes, and a request that carries a
    file part longer than that is refused, whatever the field of the part:
    the middleware fails and the handler does not run.  When the part is
    of an accepted field and type and is the first file part, after text
    parts that are within their own limit, the error is
    [LIMIT_FILE_SIZE], whatever comes after the part. *)
Theorem oversized_upload_rejected `{Server} `{Bcrypt}
    (extname : string → string)
    (appendField : gmap string js → string → string → gmap string js)
    (clock random : nat → Z) (f : file) :
  10 * 1024 * 1024 < bytes f →
  fileSize = 10 * 1024 * 1024
  ∧ (∀ w m db, f ∈ uploads m →
       ∃ e, post_register extname appendField clock random w m db
            = (Failed e, db))
  ∧ (fileFilter f = Accept →
     ∀ w texts rest db,
       Forall (λ nv, Z.of_nat (String.length nv.2) < fieldSize) texts →
       post_register extname appendField clock random w
         {| parts := ((λ nv, Text nv.1 nv.2) <$> texts) ++ File f :: rest |}
         db
       = (Failed (LIMIT_FILE_SIZE (fieldname f)), db)).
Proof.
  intros Hlong. split; [done |]. split.
  - intros w m db Hin. eapply post_register_fails; eauto.
  - intros Hok w texts rest db Htexts.
    unfold post_register, upload_fields. simpl.
    rewrite handleParts_texts by done. simpl.
    assert (∃ filesLeft', wrappedFileFilter declared f = inr filesLeft')
      as [filesLeft' ->].
    { unfold wrappedFileFilter. rewrite Hok.
      apply fileFilter_accept in Hok as [[-> _]|[-> _]]; by eexists. }
    destruct (Z.ltb_spec fileSize (bytes f)) as [_|Hshort]; [done |].
    unfold fileSize in Hshort. lia.
Qed.

Lemma oversized_upload_rejected_witness :
  let f := {| fieldname := "cv"; originalname := "cv.pdf";
              mimetype := "application/pdf"; bytes := 10485761 |} in
  @post_register example_server example_bcrypt (λ _, ".pdf")
    example_appendField (λ _, 1700000000000) (λ _, 42) example_moment
    {| parts := [Text "fullname" "Ada Lovelace"; File f] |} one_user
  = (Failed (LIMIT_FILE_SIZE "cv"), one_user).
Proof.
  intros f.
  assert (10 * 1024 * 1024 < bytes f) as Hlong by (simpl; lia).
  destruct (@oversized_upload_rejected example_server example_bcrypt
              (λ _, ".pdf") example_appendField (λ _, 1700000000000)
              (λ _, 42) f Hlong)
    as (_ & _ & Halone).
  apply (Halone eq_refl example_moment [("fullname", "Ada Lovelace")] []
           one_user).
  apply Forall_cons. split; [vm_compute; reflexivity | constructor].
Defined.

(** C10: the third arm of [storage.filename], for a field name other than
    'image' and 'cv', is never taken: every file [storage.filename] is
    called on went through [fileFilter], so its field name is 'image' or
    'cv' and its name starts with 'profile-' or 'cv-'. *)
Theorem filename_fallback_unreachable (extname : string → string)
    (appendField : gmap string js → string → string → gmap string js)
    (clock random : nat → Z) (m : form) (f : file) (name : string) :
  (f, name) ∈ (upload_fields extname appendField clock random m).1 →
  filename_arm f ≠ FieldName
  ∧ ((fieldname f = "image" ∧ ∃ rest, name = "profile-" +:+ rest)
     ∨ (fieldname f = "cv" ∧ ∃ rest, name = "cv-" +:+ rest)).
Proof.
  intros [Hok [k ->]]%upload_fields_calls.
  apply fileFilter_accept in Hok. unfold filename, filename_arm.
  destruct Hok as [[Hf _]|[Hf _]]; rewrite Hf; simpl.
  - split; [done |]. left. split; [done |]. by eexists.
  - split; [done |]. right. split; [done |]. by eexists.
Qed.

Lemma filename_fallback_unreachable_witness :
  let f := {| fieldname := "image"; originalname := "me.png";
              mimetype := "image/png"; bytes := 2048 |} in
  filename_arm f ≠ FieldName
  ∧ ((fieldname f = "image"
      ∧ ∃ rest, "profile-1700000000000-42.png" = "profile-" +:+ rest)
     ∨ (fieldname f = "cv"
        ∧ ∃ rest, "profile-1700000000000-42.png" = "cv-" +:+ rest)).
Proof.
  intros f.
  apply (filename_fallback_unreachable (λ _, ".png") example_appendField
           (λ _, 1700000000000) (λ _, 42)
           {| parts := [Text "email" "ada@example.org"; File f] |} f
           "profile-1700000000000-42.png").
  vm_compute. apply list_elem_of_here.
Defined.

(** ** The schema provisioner *)

Lemma count_zero (column : string) (columns : list string) :
  count column columns = 0 ↔ column ∉ columns.
Proof.
  unfold count. induction columns as [|c columns IH].
  - split; [intros _; apply not_elem_of_nil | done].
  - rewrite filter_cons, not_elem_of_cons.
    destruct (decide (c = column)) as [->|Hne]; simpl length.
    + split; [lia | intros [? _]; done].
    + rewrite IH. split; [by intros ? | by intros [_ ?]].
Qed.

Lemma serve_spares (fails : nat → bool) (before : list string)
    (c : connection) :
  spares before c → spares before (serve fails c).
Proof.
  intros [Hkept Hsent]. unfold serve.
  destruct (queue c) as [|[column|column dataType] rest]; [done | |].
  - destruct (fails (served c)); [done |]. unfold counted.
    destruct (Z.eqb_spec (count column (table c)) 0) as [Hnone|Hsome];
      [| done].
    apply count_zero in Hnone. split; [done |]. simpl.
    intros column' dataType' [Hin|Hin%list_elem_of_singleton]%elem_of_app.
    + by eapply Hsent.
    + injection Hin as -> _. intros Hold. by apply Hnone, Hkept.
  - destruct (_ || _); [done |]. split; [| done]. simpl.
    intros x Hx. apply elem_of_app. left. by apply Hkept.
Qed.

Lemma serve_settled (fails : nat → bool) (before : list string)
    (c : connection) :
  settled before c → settled before (serve fails c).
Proof.
  intros Hc. pose proof Hc as (Htable & Hsent & Hqueue). unfold serve.
  destruct (queue c) as [|q rest] eqn:Hq; [done |].
  assert (q ∈ sent c) as Hin by (apply Hqueue, list_elem_of_here).
  assert (rest ⊆ sent c) as Hrest.
  { intros x Hx. apply Hqueue. by apply list_elem_of_further. }
  destruct (Hsent q Hin) as (column & -> & Hhas).
  destruct (fails (served c)); [done |]. unfold counted.
  destruct (Z.eqb_spec (count column (table c)) 0) as [Hnone|Hsome];
    [| done].
  apply count_zero in Hnone. by rewrite Htable in Hnone.
Qed.

Lemma run_spares (fails : nat → bool) (before : list string) (fuel : nat) :
  ∀ c, spares before c → spares before (run fuel fails c).
Proof.
  induction fuel as [|fuel IH]; intros c Hc; simpl; [done |].
  by apply IH, serve_spares.
Qed.

Lemma run_settled (fails : nat → bool) (before : list string) (fuel : nat) :
  ∀ c, settled before c → settled before (run fuel fails c).
Proof.
  induction fuel as [|fuel IH]; intros c Hc; simpl; [done |].
  by apply IH, serve_settled.
Qed.

Lemma checkAndAddColumns_spares (columns : list string) :
  spares columns (checkAndAddColumns (connect columns)).
Proof.
  split; [done |]. simpl. intros column dataType Hin.
  repeat (apply elem_of_cons in Hin as [Hin|Hin]; [discriminate |]).
  by apply elem_of_nil in Hin.
Qed.

Lemma checkAndAddColumns_settled (columns : list string) :
  "profile_image" ∈ columns → "cv_filename" ∈ columns →
  settled columns (checkAndAddColumns (connect columns)).
Proof.
  intros Himage Hcv. split; [done |]. split; [| done]. simpl. intros q Hin.
  apply elem_of_cons in Hin as [->|Hin]; [by eexists |].
  apply elem_of_cons in Hin as [->|Hin]; [by eexists |].
  by apply elem_of_nil in Hin.
Qed.

Lemma serve_idle (fails : nat → bool) (c : connection) :
  queue c = [] → serve fails c = c.
Proof. unfold serve. by intros ->. Qed.

Lemma run_idle (fails : nat → bool) (fuel : nat) (c : connection) :
  queue c = [] → run fuel fails c = c.
Proof.
  intros Hq. induction fuel as [|fuel IH]; simpl; [done |].
  by rewrite serve_idle.
Qed.

Lemma backlog_app (qs qs' : list query) :
  backlog (qs ++ qs') = (backlog qs + backlog qs')%nat.
Proof.
  induction qs as [|[column|column dataType] qs IH]; simpl; [done | |];
    by rewrite IH.
Qed.

Lemma serve_backlog (fails : nat → bool) (c : connection) :
  queue c ≠ [] → (backlog (queue (serve fails c)) < backlog (queue c))%nat.
Proof.
  unfold serve. destruct (queue c) as [|[column|column dataType] rest];
    [done | |]; intros _.
  - destruct (fails (served c)); simpl; [lia |]. unfold counted.
    destruct (_ =? _); simpl; [| lia]. rewrite backlog_app. simpl. lia.
  - destruct (_ || _); simpl; lia.
Qed.

Lemma run_drains (fails : nat → bool) (fuel : nat) :
  ∀ c, (backlog (queue c) ≤ fuel)%nat → queue (run fuel fails c) = [].
Proof.
  induction fuel as [|fuel IH]; intros c Hfuel; simpl.
  - destruct (queue c) as [|[column|column dataType] rest]; simpl in *;
      [done | lia | lia].
  - destruct (decide (queue c = [])) as [Hq|Hq].
    + by rewrite serve_idle, run_idle.
    + apply IH. pose proof (serve_backlog fails c Hq). lia.
Qed.

(** Four steps empty the queue: two catalog queries and at most two
    [ALTER TABLE]. *)
Lemma migrate_drains (fails : nat → bool) (columns : list string) :
  queue (migrate fails columns) = [].
Proof. apply run_drains. simpl. lia. Qed.

Lemma migrate_more_fuel (fails : nat → bool) (columns : list string)
    (fuel : nat) :
  run (4 + fuel) fails (checkAndAddColumns (connect columns))
  = migrate fails columns.
Proof.
  assert (∀ n c, run (n + fuel) fails c = run fuel fails (run n fails c))
    as Hadd.
  { induction n as [|n IH]; intros c; simpl; [done | apply IH]. }
  rewrite Hadd. apply run_idle, migrate_drains.
Qed.

(** The table a migration without store errors ends on. *)
Lemma migrate_table (columns : list string) :
  table (migrate (λ _, false) columns)
  = columns
      ++ (if bool_decide ("profile_image" ∈ columns) then []
          else ["profile_image"])
      ++ (if bool_decide ("cv_filename" ∈ columns) then []
          else ["cv_filename"]).
Proof.
  destruct (bool_decide_reflect ("profile_image" ∈ columns)) as [Hi|Hi];
    destruct (bool_decide_reflect ("cv_filename" ∈ columns)) as [Hc|Hc];
    pose proof (count_zero "profile_image" columns) as Hni;
    pose proof (count_zero "cv_filename" columns) as Hnc;
    unfold migrate, checkAndAddColumns, connect, columnsToCheck; simpl;
    unfold serve at 4; simpl; unfold counted;
    destruct (Z.eqb_spec (count "profile_image" columns) 0) as [Hzi|Hzi];
    try tauto;
    (unfold serve at 3; simpl; unfold counted;
     destruct (Z.eqb_spec (count "cv_filename" columns) 0) as [Hzc|Hzc];
     try tauto);
    unfold serve at 2; unfold db_query, log; simpl.
  - by rewrite app_nil_r.
  - rewrite bool_decide_eq_false_2 by done. done.
  - rewrite bool_decide_eq_false_2 by done. done.
  - rewrite bool_decide_eq_false_2 by done. unfold serve, log. simpl.
    rewrite bool_decide_eq_false_2.
    + simpl. by rewrite <- app_assoc.
    + intros [?|Hin%list_elem_of_singleton]%elem_of_app; [done | discriminate].
Qed.

Lemma migrate_complete (columns : list string) :
  columnsToCheck ⊆ table (migrate (λ _, false) columns).
Proof.
  rewrite migrate_table. intros column Hin.
  apply elem_of_cons in Hin as [->|Hin];
    [| apply elem_of_cons in Hin as [->|Hin];
       [| by apply elem_of_nil in Hin]].
  - destruct (bool_decide_reflect ("profile_image" ∈ columns)) as [Hi|Hi].
    + apply elem_of_app. by left.
    + apply elem_of_app. right. apply elem_of_app. left.
      apply list_elem_of_here.
  - destruct (bool_decide_reflect ("cv_filename" ∈ columns)) as [Hc|Hc].
    + apply elem_of_app. by left.
    + apply elem_of_app. right. apply elem_of_app. right.
      apply list_elem_of_here.
Qed.

(** C9: the check-then-add sequence of [checkAndAddColumns] is idempotent.
    When a column is in the users table, the catalog count for it is not
    zero and no [ALTER TABLE] is sent for it, at any point of the run and
    whichever queries the store fails; on a table that has both columns the
    run sends no [ALTER TABLE] at all and leaves the columns as they were;
    and running the sequence on the table an earlier run produced changes
    nothing. *)
Theorem checkAndAddColumns_idempotent (fails : nat → bool)
    (columns : list string) (column : string) (fuel : nat) :
  column ∈ columns →
  count column columns ≠ 0
  ∧ (∀ dataType,
       AddColumn column dataType
         ∉ sent (run fuel fails (checkAndAddColumns (connect columns))))
  ∧ (columnsToCheck ⊆ columns →
       table (run fuel fails (checkAndAddColumns (connect columns))) = columns
       ∧ ∀ other dataType,
           AddColumn other dataType
             ∉ sent (run fuel fails (checkAndAddColumns (connect columns))))
  ∧ table (migrate fails (table (migrate (λ _, false) columns)))
    = table (migrate (λ _, false) columns).
Proof.
  intros Hhas. split; [by rewrite count_zero; intros ? |]. split; [| split].
  - intros dataType Hsent.
    destruct (run_spares fails columns fuel _
                (checkAndAddColumns_spares columns)) as [_ Hno].
    by apply (Hno column dataType).
  - intros Hboth.
    destruct (run_settled fails columns fuel _
                (checkAndAddColumns_settled columns
                   (Hboth _ (list_elem_of_here _ _))
                   (Hboth _ (list_elem_of_further _ _ _
                               (list_elem_of_here _ _)))))
      as (Htable & Hsent & _).
    split; [done |]. intros other dataType Hin.
    by destruct (Hsent _ Hin) as (? & ? & _).
  - pose proof (migrate_complete columns) as Hboth.
    destruct (run_settled fails _ 4 _
                (checkAndAddColumns_settled _
                   (Hboth _ (list_elem_of_here _ _))
                   (Hboth _ (list_elem_of_further _ _ _
                               (list_elem_of_here _ _)))))
      as (Htable & _).
    exact Htable.
Qed.

Lemma checkAndAddColumns_idempotent_witness :
  let columns := ["id"; "fullname"; "email"; "password"; "age"; "gender";
                  "profile_image"; "cv_filename"; "reg_date"] in
  count "cv_filename" columns ≠ 0
  ∧ table (migrate (λ n, bool_decide (n = 1%nat)) columns) = columns
  ∧ sent (migrate (λ n, bool_decide (n = 1%nat)) columns)
    = [CountColumn "profile_image"; CountColumn "cv_filename"].
Proof.
  intros columns.
  destruct (checkAndAddColumns_idempotent (λ n, bool_decide (n = 1%nat))
              columns "cv_filename" 4) as (Hcount & _ & Hsame & _).
  - unfold columns. apply list_elem_of_In. simpl. tauto.
  - split; [exact Hcount |]. split.
    + apply Hsame. intros c Hc. unfold columns.
      apply elem_of_cons in Hc as [->|Hc];
        [| apply elem_of_cons in Hc as [->|Hc];
           [| by apply elem_of_nil in Hc]];
        apply list_elem_of_In; simpl; tauto.
    + reflexivity.
Defined.

(** ** The user record store *)

Lemma truthy_true (v : option string) :
  truthy v = true ↔ ∃ s, v = Some s ∧ s ≠ "".
Proof.
  destruct v as [s|]; simpl.
  - rewrite negb_true_iff, String.eqb_neq. split.
    + intros Hs. by exists s.
    + by intros (s' & [= <-] & Hs).
  - split; [done | by intros (s & ? & _)].
Qed.


Lemma filter_none {A} (f : A → bool) (l : list A) :
  (∀ x, x ∈ l → f x = false) → List.filter f l = [].
Proof.
  induction l as [|a l IH]; intros Hall; simpl; [done |].
  rewrite (Hall a) by apply list_elem_of_here.
  apply IH. intros x Hx. by apply Hall, list_elem_of_further.
Qed.

(** [results[0]] of a [WHERE] is the first row that satisfies it. *)
Lemma filter_first {A} (f : A → bool) (l : list A) (a : A) :
  find f l = Some a → ∃ rest, List.filter f l = a :: rest.
Proof.
  induction l as [|b l IH]; simpl; [done |].
  destruct (f b); [intros [= ->]; by eexists | done].
Qed.


Section StoreFacts.
Context `{Server}.

Lemma insert_duplicate (w : moment) (fullname email password : string)
    (age gender profileImage cvFile : option string) (db : database) :
  fault w = None →
  (∃ u, u ∈ users db ∧ same_text (Handlers.email u) email = true) →
  insert w fullname email password age gender profileImage cvFile db
  = (inl {| code := "ER_DUP_ENTRY" |}, db).
Proof.
  intros Hfault (u & Hin & Hsame). unfold insert. rewrite Hfault.
  assert (existsb (λ u, same_text (Handlers.email u) email) (users db) = true)
    as ->; [| done].
  apply existsb_exists. exists u. by rewrite <- list_elem_of_In.
Qed.

Lemma insert_fault (w : moment) (err : db_error)
    (fullname email password : string)
    (age gender profileImage cvFile : option string) (db : database) :
  fault w = Some err →
  insert w fullname email password age gender profileImage cvFile db
  = (inl err, db).
Proof. intros Hfault. unfold insert. by rewrite Hfault. Qed.

(** A row is added only by an insert that succeeds, and then at the end,
    with the values the statement was given. *)
Lemma insert_cases (w : moment) (fullname email password : string)
    (age gender profileImage cvFile : option string) (db : database) :
  (∃ err,
     insert w fullname email password age gender profileImage cvFile db
     = (inl err, db))
  ∨ insert w fullname email password age gender profileImage cvFile db
    = (inr (auto_increment db),
       {| users := users db
            ++ [ {| id := auto_increment db; fullname := fullname;
                    email := email; password := password; age := age;
                    gender := gender; profile_image := profileImage;
                    cv_filename := cvFile; reg_date := now w |} ];
          auto_increment := auto_increment db + 1 |}).
Proof.
  unfold insert. destruct (fault w) as [err|]; [left; by exists err |].
  destruct (existsb _ _); [left; by eexists | by right].
Qed.
End StoreFacts.

(** The object of a row, column by column. *)
Lemma object_of_every_column (u : user) (name : string) :
  object_of every_column u !! name = column name u.
Proof.
  unfold object_of, every_column. simpl.
  repeat (rewrite lookup_insert; case_decide;
          [subst name; reflexivity |]).
  rewrite lookup_empty. unfold column.
  repeat (match goal with
          | |- context [String.eqb name ?k] =>
              destruct (String.eqb_spec name k) as [Heq|_];
              [by subst name |]
          end).
  done.
Qed.


(** ** The handlers *)

Lemma js_truthy_text (s : string) : js_truthy (JText s) = true ↔ s ≠ "".
Proof. simpl. by rewrite negb_true_iff, String.eqb_neq. Qed.

Lemma field_lookup (body : gmap string js) (name : string) (v : js) :
  body !! name = Some v → field body name = v.
Proof. unfold field. by intros ->. Qed.

(** A field that is not there, or is the empty text, is falsy. *)
Lemma field_missing (body : gmap string js) (name : string) :
  body !! name = None ∨ body !! name = Some (JText "") →
  js_truthy (field body name) = false.
Proof. unfold field. by intros [-> | ->]. Qed.

(** A value [bcrypt] takes is a text. *)
Lemma await_hash_text `{Bcrypt} (data : js) (rounds : nat)
    (salt hashed : string) :
  await_hash data rounds salt = Some hashed →
  ∃ s, data = JText s ∧ hashed = bcrypt_hash s rounds salt.
Proof. destruct data; try done. intros [= <-]. by eexists. Qed.

Lemma await_compare_text `{Bcrypt} (data : js) (encrypted : string)
    (b : bool) :
  await_compare data encrypted = Some b →
  ∃ s, data = JText s ∧ b = bcrypt_compare s encrypted.
Proof. destruct data; try done. intros [= <-]. by eexists. Qed.

Section HandlerFacts.
Context `{Server} `{Bcrypt}.

Lemma register_refused (w : moment) (req : request) (db : database) :
  js_truthy (field (body req) "fullname") = false
  ∨ js_truthy (field (body req) "email") = false
  ∨ js_truthy (field (body req) "password") = false →
  register w req db
  = ({| status := 400;
        json := Error "Full name, email, and password are required" |}, db).
Proof.
  unfold register. by intros [-> | [-> | ->]]; rewrite ?orb_true_r.
Qed.

(** Past the validation, what throws inside the [try] is answered by the
    [catch] arm, and nothing was sent to the store. *)
Lemma register_caught (w : moment) (req : request) (db : database) :
  js_truthy (field (body req) "fullname") = true →
  js_truthy (field (body req) "email") = true →
  js_truthy (field (body req) "password") = true →
  await_hash (field (body req) "password") 10 (salt w) = None
  ∨ files req = None →
  register w req db
  = ({| status := 500; json := Error "Server error" |}, db).
Proof.
  intros Hf He Hp Hthrows. unfold register. rewrite Hf, He, Hp. simpl.
  destruct (await_hash _ _ _) as [hashed|]; [| done].
  destruct Hthrows as [? | ->]; done.
Qed.

(** Past the validation and with nothing thrown, the answer is the
    insert's callback on what the store said. *)
Lemma register_sent (w : moment) (req : request) (db : database)
    (password : string) (uploaded : gmap string (stored * list stored)) :
  js_truthy (field (body req) "fullname") = true →
  js_truthy (field (body req) "email") = true →
  field (body req) "password" = JText password → password ≠ "" →
  files req = Some uploaded →
  register w req db
  = let '(answer, db') :=
      query_insert w (field (body req) "fullname")
        (field (body req) "email") (bcrypt_hash password 10 (salt w))
        (field (body req) "age") (field (body req) "gender")
        ((λ a, stored_as a.1) <$> uploaded !! "image")
        ((λ a, stored_as a.1) <$> uploaded !! "cv") db in
    (inserted answer, db').
Proof.
  intros Hf He Hp Hpne Hfiles. unfold register.
  rewrite Hf, He, Hp, Hfiles. simpl.
  apply String.eqb_neq in Hpne. by rewrite Hpne.
Qed.

(** The same for a multipart request whose fields are single texts: the
    row that is sent holds the texts, and bcrypt's output. *)
Lemma register_passed (w : moment) (req : request) (db : database)
    (fullname email password : string) (age gender : option string)
    (uploaded : gmap string (stored * list stored)) :
  body req !! "fullname" = Some (JText fullname) → fullname ≠ "" →
  body req !! "email" = Some (JText email) → email ≠ "" →
  body req !! "password" = Some (JText password) → password ≠ "" →
  bound (field (body req) "age") = Some age →
  bound (field (body req) "gender") = Some gender →
  files req = Some uploaded →
  register w req db
  = let '(answer, db') :=
      insert w fullname email (bcrypt_hash password 10 (salt w)) age gender
        ((λ a, stored_as a.1) <$> uploaded !! "image")
        ((λ a, stored_as a.1) <$> uploaded !! "cv") db in
    (inserted answer, db').
Proof.
  intros Hf%field_lookup Hfne He%field_lookup Hene Hp%field_lookup Hpne
    Hage Hgender Hfiles.
  rewrite (register_sent w req db password uploaded); try done.
  - unfold query_insert, values_sent. rewrite Hf, He, Hage, Hgender.
    unfold insert. by destruct (fault w).
  - rewrite Hf. by apply js_truthy_text.
  - rewrite He. by apply js_truthy_text.
Qed.

(** What a registration that succeeds stores: the password column holds
    what [bcrypt.hash] returned for the salt it drew. *)
Lemma register_stores_hash (w : moment) (req : request) (db : database)
    (fullname email password : string) (age gender : option string)
    (uploaded : gmap string (stored * list stored)) :
  body req !! "fullname" = Some (JText fullname) → fullname ≠ "" →
  body req !! "email" = Some (JText email) → email ≠ "" →
  body req !! "password" = Some (JText password) → password ≠ "" →
  bound (field (body req) "age") = Some age →
  bound (field (body req) "gender") = Some gender →
  files req = Some uploaded →
  fault w = None →
  (∀ u, u ∈ users db → same_text (Handlers.email u) email = false) →
  ∃ row,
    register w req db
    = ({| status := 201;
          json := Registered "User registered successfully"
                    (auto_increment db) |},
       {| users := users db ++ [row];
          auto_increment := auto_increment db + 1 |})
    ∧ Handlers.password row = bcrypt_hash password 10 (salt w)
    ∧ Handlers.email row = email
    ∧ id row = auto_increment db.
Proof.
  intros Hf Hfne He Hene Hp Hpne Hage Hgender Hfiles Hfault Hnew.
  rewrite (register_passed w req db fullname email password age gender
             uploaded) by done.
  unfold insert. rewrite Hfault.
  assert (existsb (λ u, same_text (Handlers.email u) email) (users db) = false)
    as ->.
  { apply not_true_is_false. intros (u & Hin & Hsame)%existsb_exists.
    apply list_elem_of_In in Hin. rewrite (Hnew u Hin) in Hsame. done. }
  by eexists.
Qed.
End HandlerFacts.

(** C2: a registration request that lacks fullname, email or password
    (the field is not there, or is falsy: the empty text, null, false, 0)
    is answered 400 by the handler and the store is left as it was; a
    form sent to the route inserts no row either, however the upload
    ends, when the body the middleware makes of it lacks the field. *)
Theorem register_missing_field `{Server} `{Bcrypt} (w : moment)
    (req : request) (db : database) (name : string) :
  name ∈ ["fullname"; "email"; "password"] →
  js_truthy (field (body req) name) = false →
  register w req db
  = ({| status := 400;
        json := Error "Full name, email, and password are required" |}, db)
  ∧ ∀ extname appendField clock random m,
      (∀ req', (upload_fields extname appendField clock random m).2
               = inr req' →
               js_truthy (field (body req') name) = false) →
      (post_register extname appendField clock random w m db).2 = db.
Proof.
  intros Hname Hmissing.
  assert (∀ req' : request,
            js_truthy (field (body req') name) = false →
            js_truthy (field (body req') "fullname") = false
            ∨ js_truthy (field (body req') "email") = false
            ∨ js_truthy (field (body req') "password") = false) as Hguard.
  { intros req'.
    apply elem_of_cons in Hname as [->|Hname]; [by left |].
    apply elem_of_cons in Hname as [->|Hname]; [by right; left |].
    apply elem_of_cons in Hname as [->|Hname]; [by right; right |].
    by apply elem_of_nil in Hname. }
  split; [by apply register_refused, Hguard |].
  intros extname appendField clock random m Hlacks. unfold post_register.
  destruct (upload_fields extname appendField clock random m).2
    as [e|req'] eqn:Hup; [done |].
  rewrite register_refused; [done |]. by apply Hguard, Hlacks.
Qed.

Lemma register_missing_field_witness :
  let req := {| body := {[ "fullname" := JText "Ada Lovelace";
                           "email" := JText "ada@example.org" ]};
                files := Some ∅ |} in
  @register example_server example_bcrypt example_moment req one_user
  = ({| status := 400;
        json := Error "Full name, email, and password are required" |},
     one_user).
Proof.
  intros req.
  apply (@register_missing_field example_server example_bcrypt example_moment
           req one_user "password").
  - apply list_elem_of_In. simpl. tauto.
  - apply field_missing. left. reflexivity.
Defined.

(** C1, as first stated, fails on a request that the validation stops:
    the email has a stored record, the password is missing, and the
    answer is the validation's 400, not 'Email already registered'.  It
    fails as well on a request with the three fields that is not
    multipart, which has no [req.files]: the answer is the [catch] arm's
    500 'Server error', and no insert is sent. *)
Lemma register_duplicate_email_unguarded :
  let stopped := {| body := {[ "fullname" := JText "Ada Lovelace";
                               "email" := JText "ada@example.org" ]};
                    files := Some ∅ |} in
  let posted_as_json :=
    {| body := {[ "fullname" := JText "Ada Lovelace";
                  "email" := JText "ada@example.org";
                  "password" := JText "engine" ]};
       files := None |} in
  (∃ u, u ∈ users one_user
        ∧ @same_text example_server (email u) "ada@example.org" = true)
  ∧ body stopped !! "email" = Some (JText "ada@example.org")
  ∧ (@register example_server example_bcrypt example_moment stopped
       one_user).1
    ≠ {| status := 400; json := Error "Email already registered" |}
  ∧ body posted_as_json !! "email" = Some (JText "ada@example.org")
  ∧ @register example_server example_bcrypt example_moment posted_as_json
      one_user
    = ({| status := 500; json := Error "Server error" |}, one_user).
Proof.
  intros stopped posted_as_json. split; [| split; [| split; [| split]]].
  - exists ada. split; [apply list_elem_of_here | reflexivity].
  - reflexivity.
  - vm_compute. discriminate.
  - reflexivity.
  - reflexivity.
Qed.

(** C1 (amended): for a multipart registration request whose fullname,
    email and password are non-empty texts (and whose age and gender are
    texts or not there), if the email already has a stored user record
    then the insert, when the store raises no error of another kind,
    fails with [ER_DUP_ENTRY], the handler answers 400 with 'Email already
    registered' and the store is as it was; and whenever the insert ends
    in a store error whose code is not [ER_DUP_ENTRY], the handler answers
    500 with 'Database error'. *)
Theorem register_duplicate_email `{Server} `{Bcrypt} (w : moment)
    (req : request) (db : database) (fullname email password : string)
    (age gender : option string)
    (uploaded : gmap string (stored * list stored)) :
  body req !! "fullname" = Some (JText fullname) → fullname ≠ "" →
  body req !! "email" = Some (JText email) → email ≠ "" →
  body req !! "password" = Some (JText password) → password ≠ "" →
  bound (field (body req) "age") = Some age →
  bound (field (body req) "gender") = Some gender →
  files req = Some uploaded →
  ((∃ u, u ∈ users db ∧ same_text (Handlers.email u) email = true) →
   fault w = None →
   (∀ fullname' password' age' gender' profileImage cvFile,
      insert w fullname' email password' age' gender' profileImage cvFile db
      = (inl {| code := "ER_DUP_ENTRY" |}, db))
   ∧ register w req db
     = ({| status := 400; json := Error "Email already registered" |}, db))
  ∧ (∀ err, fault w = Some err → code err ≠ "ER_DUP_ENTRY" →
       register w req db
       = ({| status := 500; json := Error "Database error" |}, db)).
Proof.
  intros Hf Hfne He Hene Hp Hpne Hage Hgender Hfiles.
  rewrite (register_passed w req db fullname email password age gender
             uploaded) by done.
  split.
  - intros Hdup Hfault. split.
    + intros. by apply insert_duplicate.
    + by rewrite insert_duplicate.
  - intros err Hfault Hcode. rewrite (insert_fault w err) by done.
    unfold inserted. apply String.eqb_neq in Hcode. by rewrite Hcode.
Qed.

Lemma register_duplicate_email_witness :
  let req := {| body := {[ "fullname" := JText "Ada King";
                           "email" := JText "ada@example.org";
                           "password" := JText "engine" ]};
                files := Some ∅ |} in
  @register example_server example_bcrypt example_moment req one_user
  = ({| status := 400; json := Error "Email already registered" |}, one_user)
  ∧ @register example_server example_bcrypt
      {| fault := Some {| code := "ECONNRESET" |};
         salt := "N9qo8uLOickgx2ZMRZoMye"; now := 1700000000000 |}
      req one_user
    = ({| status := 500; json := Error "Database error" |}, one_user).
Proof.
  intros req.
  assert (body req !! "fullname" = Some (JText "Ada King")) as Hf
    by reflexivity.
  assert (body req !! "email" = Some (JText "ada@example.org")) as He
    by reflexivity.
  assert (body req !! "password" = Some (JText "engine")) as Hp
    by reflexivity.
  assert (bound (field (body req) "age") = Some None) as Hage by reflexivity.
  assert (bound (field (body req) "gender") = Some None) as Hgender
    by reflexivity.
  assert (files req = Some ∅) as Hfiles by reflexivity.
  assert ("Ada King" ≠ "") as Hfne by discriminate.
  assert ("ada@example.org" ≠ "") as Hene by discriminate.
  assert ("engine" ≠ "") as Hpne by discriminate.
  split.
  - pose proof (@register_duplicate_email example_server example_bcrypt
                  example_moment req one_user "Ada King" "ada@example.org"
                  "engine" None None ∅ Hf Hfne He Hene Hp Hpne Hage Hgender
                  Hfiles) as [Hdup _].
    apply Hdup; [| reflexivity].
    exists ada. split; [apply list_elem_of_here | reflexivity].
  - pose proof (@register_duplicate_email example_server example_bcrypt
                  {| fault := Some {| code := "ECONNRESET" |};
                     salt := "N9qo8uLOickgx2ZMRZoMye";
                     now := 1700000000000 |}
                  req one_user "Ada King" "ada@example.org" "engine"
                  None None ∅ Hf Hfne He Hene Hp Hpne Hage Hgender Hfiles)
      as [_ Hother].
    apply (Hother {| code := "ECONNRESET" |}); [reflexivity | discriminate].
Defined.

Section LoginFacts.
Context `{Server} `{Bcrypt}.

(** Past the validation, the answer is given in the callback of the
    lookup. *)
Lemma login_passed (w : moment) (body : gmap string js) (db : database) :
  js_truthy (field body "email") = true →
  js_truthy (field body "password") = true →
  login w body db
  = match query_by_email w (field body "email") db with
    | inl err => Some {| status := 500; json := Error "Database error" |}
    | inr [] =>
        Some {| status := 401; json := Error "Invalid email or password" |}
    | inr (user :: _) =>
        match await_compare (field body "password") (Handlers.password user)
        with
        | None => None
        | Some passwordMatch =>
            if negb passwordMatch
            then Some {| status := 401;
                         json := Error "Invalid email or password" |}
            else Some {| status := 200;
                         json := LoggedIn "Login successful"
                                   (delete "password"
                                      (object_of every_column user)) |}
        end
    end.
Proof. intros He Hp. unfold login. by rewrite He, Hp. Qed.

Lemma select_by_email_none (w : moment) (email : string) (db : database) :
  fault w = None →
  (∀ u, u ∈ users db → same_text (Handlers.email u) email = false) →
  select_by_email w email db = inr [].
Proof.
  intros Hfault Hnone. unfold select_by_email. rewrite Hfault.
  by rewrite filter_none.
Qed.

Lemma select_by_email_first (w : moment) (email : string) (db : database)
    (u : user) :
  fault w = None →
  find (λ u, same_text (Handlers.email u) email) (users db) = Some u →
  ∃ rest, select_by_email w email db = inr (u :: rest).
Proof.
  intros Hfault [rest Hrest]%filter_first. unfold select_by_email.
  rewrite Hfault, Hrest. by exists rest.
Qed.

(** A lookup that the store fails. *)
Lemma query_by_email_fault (w : moment) (email : js) (db : database)
    (err : db_error) :
  fault w = Some err → query_by_email w email db = inl err.
Proof.
  intros Hfault. unfold query_by_email, select_by_email.
  rewrite Hfault. by destruct email.
Qed.

(** What the lookup returns is among the stored records. *)
Lemma query_by_email_found (w : moment) (email : js) (db : database)
    (u : user) (others : list user) :
  query_by_email w email db = inr (u :: others) →
  u ∈ users db.
Proof.
  assert (∀ satisfies : user → bool,
            List.filter satisfies (users db) = u :: others → u ∈ users db)
    as Hfilter.
  { intros satisfies Hrows.
    assert (In u (List.filter satisfies (users db))) as Hin
      by (rewrite Hrows; by left).
    apply filter_In in Hin as [Hin _]. by apply list_elem_of_In. }
  unfold query_by_email, select_by_email.
  destruct (fault w); [by destruct email |].
  destruct email; try (destruct (where_email _) as [err|satisfies]; [done |]);
    intros [= Hrows]; by eapply Hfilter.
Qed.
End LoginFacts.

(** C3, as first stated, fails when the store fails the lookup: the
    request has email and password, no user record has the email, and the
    answer is 500 'Database error', not 401. *)
Lemma login_lookup_may_fail :
  let body : gmap string js :=
    {[ "email" := JText "grace@example.org";
       "password" := JText "analytical" ]} in
  let w := {| fault := Some {| code := "ECONNRESET" |};
              salt := "N9qo8uLOickgx2ZMRZoMye"; now := 1700000000000 |} in
  js_truthy (field body "email") = true
  ∧ js_truthy (field body "password") = true
  ∧ (∀ u, u ∈ users one_user →
       @same_text example_server (email u) "grace@example.org" = false)
  ∧ @login example_server example_bcrypt w body one_user
    = Some {| status := 500; json := Error "Database error" |}
  ∧ @login example_server example_bcrypt w body one_user
    ≠ Some {| status := 401; json := Error "Invalid email or password" |}.
Proof.
  intros body w. split; [reflexivity |]. split; [reflexivity |].
  split; [| split].
  - intros u Hu. apply list_elem_of_singleton in Hu. by subst u.
  - reflexivity.
  - vm_compute. discriminate.
Qed.

(** C3 (amended): for a login request with email and password present,
    the email a text.  When the store answers the lookup: if no user
    record has the email the answer is 401 with 'Invalid email or
    password', and if a record has it and the password, a text, does not
    verify against the stored hash of the first such record, the answer is
    the same, status and message: the two answers are equal, whatever the
    two requests and stores are.  When the store fails the lookup, the
    answer is 500 with 'Database error'. *)
Theorem login_failures_indistinguishable `{Server} `{Bcrypt}
    (w1 w2 : moment) (body1 body2 : gmap string js) (db1 db2 : database)
    (email1 email2 password2 : string) (user2 : user) :
  body1 !! "email" = Some (JText email1) → email1 ≠ "" →
  js_truthy (field body1 "password") = true →
  body2 !! "email" = Some (JText email2) → email2 ≠ "" →
  body2 !! "password" = Some (JText password2) → password2 ≠ "" →
  (fault w1 = None →
   (∀ u, u ∈ users db1 → same_text (email u) email1 = false) →
   fault w2 = None →
   find (λ u, same_text (email u) email2) (users db2) = Some user2 →
   bcrypt_compare password2 (password user2) = false →
   login w1 body1 db1
   = Some {| status := 401; json := Error "Invalid email or password" |}
   ∧ login w2 body2 db2
     = Some {| status := 401; json := Error "Invalid email or password" |}
   ∧ login w1 body1 db1 = login w2 body2 db2)
  ∧ (∀ err, fault w1 = Some err →
       login w1 body1 db1
       = Some {| status := 500; json := Error "Database error" |}).
Proof.
  intros He1%field_lookup Hene1 Hp1 He2%field_lookup Hene2 Hp2%field_lookup
    Hpne2.
  assert (js_truthy (field body1 "email") = true) as Ht1
    by (rewrite He1; by apply js_truthy_text).
  assert (js_truthy (field body2 "email") = true) as Ht2
    by (rewrite He2; by apply js_truthy_text).
  assert (js_truthy (field body2 "password") = true) as Htp2
    by (rewrite Hp2; by apply js_truthy_text).
  rewrite (login_passed w1 body1 db1) by done.
  rewrite (login_passed w2 body2 db2) by done.
  rewrite He1, He2, Hp2. simpl. split.
  - intros Hfault1 Habsent Hfault2 Hfound Hwrong.
    rewrite (select_by_email_none w1 email1 db1) by done.
    destruct (select_by_email_first w2 email2 db2 user2 Hfault2 Hfound)
      as [rest ->].
    by rewrite Hwrong.
  - intros err Hfault. unfold select_by_email. by rewrite Hfault.
Qed.

Lemma login_failures_indistinguishable_witness :
  let unknown : gmap string js :=
    {[ "email" := JText "grace@example.org";
       "password" := JText "analytical" ]} in
  let mistaken : gmap string js :=
    {[ "email" := JText "ada@example.org";
       "password" := JText "difference" ]} in
  @login example_server example_bcrypt example_moment unknown one_user
  = Some {| status := 401; json := Error "Invalid email or password" |}
  ∧ @login example_server example_bcrypt example_moment mistaken one_user
    = Some {| status := 401; json := Error "Invalid email or password" |}
  ∧ @login example_server example_bcrypt example_moment unknown one_user
    = @login example_server example_bcrypt example_moment mistaken one_user.
Proof.
  intros unknown mistaken.
  assert (unknown !! "email" = Some (JText "grace@example.org")) as He1
    by reflexivity.
  assert (js_truthy (field unknown "password") = true) as Hp1 by reflexivity.
  assert (mistaken !! "email" = Some (JText "ada@example.org")) as He2
    by reflexivity.
  assert (mistaken !! "password" = Some (JText "difference")) as Hp2
    by reflexivity.
  assert ("grace@example.org" ≠ "") as Hene1 by discriminate.
  assert ("ada@example.org" ≠ "") as Hene2 by discriminate.
  assert ("difference" ≠ "") as Hpne2 by discriminate.
  assert (∀ u, u ∈ users one_user →
            @same_text example_server (email u) "grace@example.org" = false)
    as Habsent.
  { intros u Hu. apply list_elem_of_singleton in Hu. by subst u. }
  exact (proj1 (@login_failures_indistinguishable example_server
                  example_bcrypt example_moment example_moment unknown
                  mistaken one_user one_user "grace@example.org"
                  "ada@example.org" "difference" ada He1 Hene1 Hp1 He2 Hene2
                  Hp2 Hpne2)
           eq_refl Habsent eq_refl eq_refl eq_refl).
Defined.

(** C5: a login that succeeds (the lookup finds a record with the email
    and the password verifies against its hash) is answered 200 with that
    stored record without its password field: the answer's user has no
    [password], and every other column of the record is there with the
    stored value. *)
Theorem login_success_omits_password `{Server} `{Bcrypt} (w : moment)
    (body : gmap string js) (db : database) (email password : string)
    (u : user) (others : list user) :
  body !! "email" = Some (JText email) → email ≠ "" →
  body !! "password" = Some (JText password) → password ≠ "" →
  select_by_email w email db = inr (u :: others) →
  bcrypt_compare password (Handlers.password u) = true →
  u ∈ users db
  ∧ ∃ shown,
      login w body db
      = Some {| status := 200; json := LoggedIn "Login successful" shown |}
      ∧ shown = delete "password" (object_of every_column u)
      ∧ shown !! "password" = None
      ∧ ∀ name, name ≠ "password" → shown !! name = column name u.
Proof.
  intros He%field_lookup Hene Hp%field_lookup Hpne Hfound Hmatch. split.
  - by apply (query_by_email_found w (JText email) db u others).
  - exists (delete "password" (object_of every_column u)).
    rewrite (login_passed w body db)
      by (rewrite ?He, ?Hp; by apply js_truthy_text).
    rewrite He, Hp. simpl. rewrite Hfound, Hmatch. simpl.
    split; [done |]. split; [done |]. split.
    + apply lookup_delete_eq.
    + intros name Hname. rewrite lookup_delete_ne by done.
      apply object_of_every_column.
Qed.

Lemma login_success_omits_password_witness :
  let body : gmap string js :=
    {[ "email" := JText "ada@example.org";
       "password" := JText "analytical" ]} in
  ada ∈ users one_user
  ∧ ∃ shown,
      @login example_server example_bcrypt example_moment body one_user
      = Some {| status := 200; json := LoggedIn "Login successful" shown |}
      ∧ shown = delete "password" (object_of every_column ada)
      ∧ shown !! "password" = None
      ∧ ∀ name, name ≠ "password" → shown !! name = column name ada.
Proof.
  intros body.
  assert (body !! "email" = Some (JText "ada@example.org")) as He
    by reflexivity.
  assert (body !! "password" = Some (JText "analytical")) as Hp
    by reflexivity.
  assert ("ada@example.org" ≠ "") as Hene by discriminate.
  assert ("analytical" ≠ "") as Hpne by discriminate.
  exact (@login_success_omits_password example_server example_bcrypt
           example_moment body one_user "ada@example.org" "analytical" ada
           [] He Hene Hp Hpne eq_refl eq_refl).
Defined.


Section DashboardFacts.
Context `{Server}.

End DashboardFacts.




(** * More on the schema provisioner *)

Lemma counted_optional (column : string) (n : Z) (c : connection) :
  column ∈ columnsToCheck →
  Forall optional (queue c) → Forall optional (sent c) →
  Forall optional (queue (counted column n c))
  ∧ Forall optional (sent (counted column n c)).
Proof.
  intros Hcol Hq Hs. unfold counted. destruct (n =? 0); [| done]. simpl.
  assert (optional (AddColumn column
            (if String.eqb column "cv_filename" then "VARCHAR(255)"
             else "VARCHAR(255)"))) as Hadd.
  { split; [done |]. by destruct (String.eqb _ _). }
  split; apply Forall_app; split; try done; by apply Forall_singleton.
Qed.

(** One step of the server keeps what was in the table where it was, adds
    at most one of the two optional columns, never a column the table has,
    and sends at most one statement, on an optional column. *)
Lemma serve_adds (fails : nat → bool) (c : connection) :
  Forall optional (queue c) → Forall optional (sent c) →
  Forall optional (queue (serve fails c))
  ∧ Forall optional (sent (serve fails c))
  ∧ table c `prefix_of` table (serve fails c)
  ∧ (∀ x, x ∈ table (serve fails c) → x ∈ table c ∨ x ∈ columnsToCheck)
  ∧ (NoDup (table c) → NoDup (table (serve fails c)))
  ∧ (length (sent (serve fails c)) + checks (queue (serve fails c))
     ≤ length (sent c) + checks (queue c))%nat
  ∧ sent c `prefix_of` sent (serve fails c).
Proof.
  intros Hq Hs. unfold serve.
  destruct (queue c) as [|[column|column dataType] rest] eqn:Hqueue.
  - rewrite Hqueue. repeat split; try done. intros x Hx. by left.
  - apply Forall_cons in Hq as [Hcol Hrest]. simpl in Hcol.
    destruct (fails (served c)).
    + simpl. repeat split; try done; [by left | lia].
    + destruct (counted_optional column (count column (table c))
                  {| table := table c; queue := rest; sent := sent c;
                     console := console c; served := S (served c) |}
                  Hcol Hrest Hs) as [Hq' Hs'].
      split; [done |]. split; [done |]. unfold counted.
      destruct (_ =? 0); simpl.
      * repeat split; try done; [by left | | by apply prefix_app_r].
        rewrite length_app. simpl.
        assert (∀ qs q, checks (qs ++ [q]) = (checks qs + checks [q])%nat)
          as Happ.
        { induction qs as [|[?|? ?] qs IH]; intros q; simpl; [done | |];
            by rewrite IH. }
        rewrite Happ. simpl. lia.
      * repeat split; try done; [by left | lia].
  - apply Forall_cons in Hq as [[Hcol _] Hrest].
    destruct (fails (served c)); simpl;
      [repeat split; try done; by left |].
    destruct (bool_decide_reflect (column ∈ table c)) as [Hin|Hnew]; simpl.
    + repeat split; try done. by left.
    + repeat split; try done.
      * by apply prefix_app_r.
      * intros x [Hx|Hx%list_elem_of_singleton]%elem_of_app;
          [by left | subst x; by right].
      * intros Hnodup. apply NoDup_app. repeat split; [done | |].
        -- intros x Hx ->%list_elem_of_singleton. done.
        -- apply NoDup_singleton.
Qed.

Lemma run_adds (fails : nat → bool) (fuel : nat) :
  ∀ c,
    Forall optional (queue c) → Forall optional (sent c) →
    Forall optional (sent (run fuel fails c))
    ∧ table c `prefix_of` table (run fuel fails c)
    ∧ (∀ x, x ∈ table (run fuel fails c) → x ∈ table c ∨ x ∈ columnsToCheck)
    ∧ (NoDup (table c) → NoDup (table (run fuel fails c)))
    ∧ (length (sent (run fuel fails c)) ≤ length (sent c) + checks (queue c))%nat
    ∧ sent c `prefix_of` sent (run fuel fails c).
Proof.
  induction fuel as [|fuel IH]; intros c Hq Hs; simpl.
  - repeat split; try done; [by left | lia].
  - destruct (serve_adds fails c Hq Hs)
      as (Hq' & Hs' & Hpre & Hnew & Hnodup & Hlen & Hsent).
    destruct (IH (serve fails c) Hq' Hs')
      as (Hs'' & Hpre' & Hnew' & Hnodup' & Hlen' & Hsent').
    repeat split.
    + done.
    + by etrans.
    + intros x Hx. destruct (Hnew' x Hx) as [Hx'|Hx']; [| by right].
      by apply Hnew.
    + intros Hnd. by apply Hnodup', Hnodup.
    + lia.
    + by etrans.
Qed.

Lemma checkAndAddColumns_optional (columns : list string) :
  Forall optional (queue (checkAndAddColumns (connect columns)))
  ∧ Forall optional (sent (checkAndAddColumns (connect columns))).
Proof.
  assert (Forall optional
            [CountColumn "profile_image"; CountColumn "cv_filename"]) as Hq.
  { apply Forall_cons. split; [apply list_elem_of_In; simpl; tauto |].
    apply Forall_cons. split; [apply list_elem_of_In; simpl; tauto |].
    constructor. }
  by split.
Qed.

(** X1: whichever statements fail and however far the run has got, the
    migration only adds: the columns the table had are still its first
    columns, in their order; a column that came on top is 'profile_image'
    or 'cv_filename'; no column is twice in the table if none was; and
    every statement sent is a catalog query or an [ALTER TABLE ... ADD
    COLUMN ... VARCHAR(255)] on one of these two columns. *)
Theorem migration_only_adds (fails : nat → bool) (columns : list string)
    (fuel : nat) :
  columns `prefix_of`
    table (run fuel fails (checkAndAddColumns (connect columns)))
  ∧ (∀ x, x ∈ table (run fuel fails (checkAndAddColumns (connect columns))) →
       x ∈ columns ∨ x = "profile_image" ∨ x = "cv_filename")
  ∧ (NoDup columns →
     NoDup (table (run fuel fails (checkAndAddColumns (connect columns)))))
  ∧ ∀ q, q ∈ sent (run fuel fails (checkAndAddColumns (connect columns))) →
      (∃ column, q = CountColumn column
                 ∧ (column = "profile_image" ∨ column = "cv_filename"))
      ∨ (∃ column, q = AddColumn column "VARCHAR(255)"
                   ∧ (column = "profile_image" ∨ column = "cv_filename")).
Proof.
  assert (∀ x, x ∈ columnsToCheck → x = "profile_image" ∨ x = "cv_filename")
    as Htwo.
  { intros x Hx. apply list_elem_of_In in Hx. simpl in Hx.
    destruct Hx as [<-|[<-|[]]]; [by left | by right]. }
  destruct (checkAndAddColumns_optional columns) as [Hq Hs].
  destruct (run_adds fails fuel _ Hq Hs)
    as (Hsent & Hpre & Hnew & Hnodup & _ & _).
  split; [done |]. split; [| split; [done |]].
  - intros x Hx. destruct (Hnew x Hx) as [Hold|Hopt]; [by left | right].
    by apply Htwo.
  - intros q Hin. rewrite Forall_forall in Hsent. specialize (Hsent q Hin).
    destruct q as [column|column dataType]; simpl in Hsent.
    + left. exists column. split; [done |]. by apply Htwo.
    + right. destruct Hsent as [Hcol ->]. exists column.
      split; [done |]. by apply Htwo.
Qed.

Lemma migration_only_adds_witness :
  let columns := ["id"; "fullname"; "email"; "password"; "age"; "gender";
                  "reg_date"] in
  let fails := λ n : nat, bool_decide (n = 2%nat) in
  NoDup (table (migrate fails columns))
  ∧ columns `prefix_of` table (migrate fails columns).
Proof.
  intros columns fails.
  destruct (migration_only_adds fails columns 4) as (Hpre & _ & Hnodup & _).
  split; [| exact Hpre]. apply Hnodup.
  apply (bool_decide_unpack _). vm_compute. exact I.
Defined.

(** X2: the migration ends, whatever fails: it sends the two catalog
    queries first, never more than four statements in all, and after four
    steps of the server nothing is left in the queue. *)
Theorem migration_ends (fails : nat → bool) (columns : list string)
    (fuel : nat) :
  [CountColumn "profile_image"; CountColumn "cv_filename"]
    `prefix_of` sent (run fuel fails (checkAndAddColumns (connect columns)))
  ∧ (length (sent (run fuel fails (checkAndAddColumns (connect columns))))
     ≤ 4)%nat
  ∧ queue (run (4 + fuel) fails (checkAndAddColumns (connect columns))) = [].
Proof.
  destruct (checkAndAddColumns_optional columns) as [Hq Hs].
  destruct (run_adds fails fuel _ Hq Hs) as (_ & _ & _ & _ & Hlen & Hsent).
  split; [exact Hsent |]. split; [exact Hlen |].
  apply run_drains. simpl. lia.
Qed.

Lemma migrate_table_filter (columns : list string) :
  table (migrate (λ _, false) columns)
  = columns ++ filter (λ column, column ∉ columns) columnsToCheck.
Proof.
  rewrite migrate_table. unfold columnsToCheck.
  rewrite !filter_cons, filter_nil.
  destruct (bool_decide_reflect ("profile_image" ∈ columns)) as [Hi|Hi];
    destruct (bool_decide_reflect ("cv_filename" ∈ columns)) as [Hc|Hc];
    repeat (case_decide; try done).
Qed.

(** X3: without store errors the migration completes the table: it ends on
    the columns it found followed by those of 'profile_image' and
    'cv_filename' that were missing, in this order, so that both are in the
    table afterwards. *)
Theorem migration_completes (columns : list string) :
  table (migrate (λ _, false) columns)
  = columns ++ filter (λ column, column ∉ columns) columnsToCheck
  ∧ "profile_image" ∈ table (migrate (λ _, false) columns)
  ∧ "cv_filename" ∈ table (migrate (λ _, false) columns).
Proof.
  split; [apply migrate_table_filter |].
  pose proof (migrate_complete columns) as Hboth.
  split; apply Hboth, list_elem_of_In; simpl; tauto.
Qed.

(** A column that no statement of the queue is about stays as it is, in
    the table or out of it. *)
Lemma serve_untouched (fails : nat → bool) (x : string) (c : connection) :
  Forall (λ q, q ≠ CountColumn x ∧ ∀ dataType, q ≠ AddColumn x dataType)
    (queue c) →
  Forall (λ q, q ≠ CountColumn x ∧ ∀ dataType, q ≠ AddColumn x dataType)
    (queue (serve fails c))
  ∧ (x ∈ table (serve fails c) ↔ x ∈ table c).
Proof.
  intros Hq. unfold serve.
  destruct (queue c) as [|[column|column dataType] rest] eqn:Hqueue.
  - by rewrite Hqueue.
  - apply Forall_cons in Hq as [[Hcol _] Hrest].
    destruct (fails (served c)); [done |]. unfold counted.
    destruct (_ =? 0); [| done]. simpl. split; [| done].
    apply Forall_app. split; [done |]. apply Forall_singleton.
    split; [done |]. intros dataType [= ->]. done.
  - apply Forall_cons in Hq as [[_ Hcol] Hrest].
    destruct (_ || _); [done |]. simpl. split; [done |].
    rewrite elem_of_app, list_elem_of_singleton. split; [| by left].
    intros [Hx| ->]; [done |]. by destruct (Hcol dataType).
Qed.

Lemma run_untouched (fails : nat → bool) (x : string) (fuel : nat) :
  ∀ c,
    Forall (λ q, q ≠ CountColumn x ∧ ∀ dataType, q ≠ AddColumn x dataType)
      (queue c) →
    x ∈ table (run fuel fails c) ↔ x ∈ table c.
Proof.
  induction fuel as [|fuel IH]; intros c Hq; simpl; [done |].
  destruct (serve_untouched fails x c Hq) as [Hq' Htable].
  by rewrite IH.
Qed.

(** X4: a catalog query that fails leaves its column as it was: when the
    query for 'profile_image' (the first statement) ends in an error, the
    table has the column after the run iff it had it before, and the same
    for 'cv_filename' and the second statement.  The column that was
    missing stays missing. *)
Theorem failed_check_leaves_column (fails : nat → bool)
    (columns : list string) (fuel : nat) :
  (fails 0%nat = true →
   ("profile_image"
      ∈ table (run fuel fails (checkAndAddColumns (connect columns)))
    ↔ "profile_image" ∈ columns))
  ∧ (fails 1%nat = true →
     ("cv_filename"
        ∈ table (run fuel fails (checkAndAddColumns (connect columns)))
      ↔ "cv_filename" ∈ columns)).
Proof.
  split; intros Hfails.
  - destruct fuel as [|fuel]; [done |]. simpl.
    unfold serve at 1. simpl. rewrite Hfails.
    rewrite run_untouched; [done |]. simpl.
    apply Forall_singleton. split; [discriminate |]. intros ?. discriminate.
  - destruct fuel as [|[|fuel]]; [done | |].
    + simpl. unfold serve, counted. simpl.
      destruct (fails 0%nat); [done |]. by destruct (_ =? 0).
    + simpl. unfold serve at 2. simpl. unfold counted.
      destruct (fails 0%nat); [| destruct (_ =? 0)]; simpl;
        unfold serve at 1; simpl; rewrite Hfails;
        (rewrite run_untouched; [done |]); simpl;
        repeat (apply Forall_cons; split;
                [split; [discriminate | intros ?; discriminate] |]);
        constructor.
Qed.

Lemma failed_check_leaves_column_witness :
  let columns := ["id"; "fullname"; "email"; "password"; "age"; "gender";
                  "reg_date"] in
  let fails := λ n : nat, bool_decide (n = 0%nat) in
  ("profile_image" ∉ table (migrate fails columns))
  ∧ ("cv_filename" ∈ table (migrate fails columns)).
Proof.
  intros columns fails. split.
  - intros Hin.
    apply (proj1 (failed_check_leaves_column fails columns 4) eq_refl) in Hin.
    apply list_elem_of_In in Hin. simpl in Hin.
    repeat (destruct Hin as [Hin|Hin]; [discriminate |]). done.
  - vm_compute. apply list_elem_of_In. simpl. tauto.
Defined.

(** * The start of the server *)

Lemma startup_table (fails : nat → bool) (before : option (list string)) :
  fails 0%nat = false → fails 1%nat = false → fails 2%nat = false →
  users_table (startup false fails before)
  = Some (table (migrate (λ n, fails (3 + n)%nat)
                   (default createTableColumns before))).
Proof. intros H0 H1 H2. unfold startup. by rewrite H0, H1, H2. Qed.

(** X5: a start without errors leaves a complete users table: the nine
    columns of the [CREATE TABLE] statement when there was no table, and
    otherwise the columns the table had followed by those of
    'profile_image' and 'cv_filename' it lacked.  A second start changes
    nothing and sends no [ALTER TABLE], whichever of its catalog and
    [ALTER] statements fail. *)
Theorem startup_completes_table (before : option (list string))
    (fails : nat → bool) :
  users_table (startup false (λ _, false) None) = Some createTableColumns
  ∧ (∀ columns,
       users_table (startup false (λ _, false) (Some columns))
       = Some (columns ++ filter (λ column, column ∉ columns) columnsToCheck))
  ∧ (fails 0%nat = false → fails 1%nat = false → fails 2%nat = false →
     users_table
       (startup false fails (users_table (startup false (λ _, false) before)))
     = users_table (startup false (λ _, false) before)
     ∧ ∀ column dataType,
         Migration (AddColumn column dataType)
           ∉ statements
               (startup false fails
                  (users_table (startup false (λ _, false) before)))).
Proof.
  split; [reflexivity |]. split.
  - intros columns. rewrite startup_table by done. simpl.
    by rewrite migrate_table_filter.
  - intros H0 H1 H2.
    rewrite (startup_table (λ _, false)) by done.
    rewrite startup_table by done. simpl.
    set (columns := table (migrate (λ _, false)
                             (default createTableColumns before))).
    pose proof (migrate_complete (default createTableColumns before))
      as Hboth. fold columns in Hboth.
    destruct (run_settled (λ n, fails (3 + n)%nat) columns 4 _
                (checkAndAddColumns_settled columns
                   (Hboth _ (list_elem_of_here _ _))
                   (Hboth _ (list_elem_of_further _ _ _
                               (list_elem_of_here _ _)))))
      as (Htable & Hsent & _).
    split; [by rewrite <- Htable at 2 |].
    intros column dataType. unfold startup. rewrite H0, H1, H2. simpl.
    intros Hin. do 3 (apply elem_of_cons in Hin as [Hin|Hin];
                      [discriminate |]).
    apply list_elem_of_fmap in Hin as (q & [= <-] & Hq).
    by destruct (Hsent _ Hq) as (? & ? & _).
Qed.

Lemma startup_completes_table_witness :
  let old := ["id"; "fullname"; "email"; "password"; "reg_date"] in
  let fails := λ n : nat, bool_decide (n = 3%nat) in
  users_table (startup false (λ _, false) (Some old))
  = Some (old ++ ["profile_image"; "cv_filename"])
  ∧ users_table
      (startup false fails
         (users_table (startup false (λ _, false) (Some old))))
    = users_table (startup false (λ _, false) (Some old)).
Proof.
  intros old fails.
  destruct (startup_completes_table (Some old) fails) as (_ & Hold & Hagain).
  split; [exact (Hold old) |].
  exact (proj1 (Hagain eq_refl eq_refl eq_refl)).
Defined.

(** X6: whatever fails, a start takes nothing from a table that is there:
    its columns are still the first columns of the table, in their order,
    what came on top is 'profile_image' or 'cv_filename', and no column is
    twice in the table if none was.  The statements of
    [checkAndAddColumns] are sent only when the connection and the three
    statements before them succeeded. *)
Theorem startup_keeps_columns (refused : bool) (fails : nat → bool)
    (columns : list string) :
  (∃ after,
     users_table (startup refused fails (Some columns)) = Some after
     ∧ columns `prefix_of` after
     ∧ (∀ x, x ∈ after →
          x ∈ columns ∨ x = "profile_image" ∨ x = "cv_filename")
     ∧ (NoDup columns → NoDup after))
  ∧ ∀ before q,
      Migration q ∈ statements (startup refused fails before) →
      refused = false ∧ fails 0%nat = false ∧ fails 1%nat = false
      ∧ fails 2%nat = false.
Proof.
  split.
  - unfold startup.
    destruct refused; [exists columns; repeat split; try done; by left |].
    destruct (fails 0%nat);
      [exists columns; repeat split; try done; by left |].
    destruct (fails 1%nat);
      [exists columns; repeat split; try done; by left |].
    destruct (fails 2%nat);
      [exists columns; repeat split; try done; by left |].
    simpl. eexists. split; [done |].
    destruct (checkAndAddColumns_optional columns) as [Hq Hs].
    destruct (run_adds (λ n, fails (3 + n)%nat) 4 _ Hq Hs)
      as (_ & Hpre & Hnew & Hnodup & _ & _).
    split; [exact Hpre |]. split; [| exact Hnodup].
    intros x Hx. destruct (Hnew x Hx) as [Hold|Hopt]; [by left | right].
    apply list_elem_of_In in Hopt. simpl in Hopt.
    destruct Hopt as [<-|[<-|[]]]; [by left | by right].
  - intros before q. unfold startup.
    destruct refused; [by intros ?%elem_of_nil |].
    destruct (fails 0%nat).
    { intros Hin. apply list_elem_of_In in Hin. simpl in Hin.
      by destruct Hin as [?|[]]. }
    destruct (fails 1%nat).
    { intros Hin. apply list_elem_of_In in Hin. simpl in Hin.
      by destruct Hin as [?|[?|[]]]. }
    destruct (fails 2%nat); [| done].
    intros Hin. apply list_elem_of_In in Hin. simpl in Hin.
    by destruct Hin as [?|[?|[?|[]]]].
Qed.

Lemma startup_keeps_columns_witness :
  let old := ["id"; "fullname"; "email"; "password"; "reg_date"] in
  let fails := λ n : nat, bool_decide (n = 4%nat) in
  ∃ after,
    users_table (startup false fails (Some old)) = Some after
    ∧ old `prefix_of` after
    ∧ NoDup after.
Proof.
  intros old fails.
  destruct (proj1 (startup_keeps_columns false fails old))
    as (after & Hafter & Hpre & _ & Hnodup).
  exists after. split; [exact Hafter |]. split; [exact Hpre |].
  apply Hnodup. apply (bool_decide_unpack _). vm_compute. exact I.
Defined.

(** * More on the upload handler *)

Section UploadFacts.
Variable extname : string → string.
Variable appendField : gmap string js → string → string → gmap string js.
Variables clock random : nat → Z.

(** When the middleware lets the parts through, it has appended every
    text part to the body, in order, and each was within the limit; it has
    called [storage.filename] once per file part, in order, and stored
    each part under the name it got; every file part was accepted by the
    filter and is within the limit; and no field had more file parts than
    it had room for. *)
Lemma handleParts_passed (ps : list item) :
  ∀ n filesLeft body fs calls body' fs',
    handleParts extname appendField clock random n filesLeft body fs ps
    = (calls, inr (body', fs')) →
    calls = imap (λ i f, (f, filename extname (clock (n + i)%nat)
                               (random (n + i)%nat) f))
              (uploads {| parts := ps |})
    ∧ body' = foldl (λ b nv, appendField b nv.1 nv.2) body
                (fields {| parts := ps |})
    ∧ fs' = foldl appendFile fs
              (imap (λ i f, kept extname (clock (n + i)%nat)
                              (random (n + i)%nat) f)
                 (uploads {| parts := ps |}))
    ∧ Forall (λ nv, Z.of_nat (String.length nv.2) ≤ fieldSize)
        (fields {| parts := ps |})
    ∧ Forall (λ f, fileFilter f = Accept ∧ bytes f ≤ fileSize)
        (uploads {| parts := ps |})
    ∧ ∀ key, (length (filter (λ f, fieldname f = key)
                        (uploads {| parts := ps |}))
              ≤ default 0%nat (filesLeft !! key))%nat.
Proof.
  unfold uploads, fields. simpl.
  induction ps as [|[name value|f] ps IH];
    intros n filesLeft body fs calls body' fs'; simpl.
  - intros [= <- <- <-].
    split; [done |]. split; [done |]. split; [done |].
    split; [constructor |]. split; [constructor |]. intros key. lia.
  - destruct (Z.ltb_spec fieldSize (Z.of_nat (String.length value)))
      as [Hlong|Hshort]; [done |].
    intros Hrec.
    destruct (IH _ _ _ _ _ _ _ Hrec)
      as (Hcalls & Hbody & Hfs & Htexts & Hall & Hroom).
    split; [done |]. split; [done |]. split; [done |].
    split; [by constructor |]. by split.
  - destruct (wrappedFileFilter filesLeft f) as [e|filesLeft'] eqn:Hw;
      [done |].
    destruct (Z.ltb_spec fileSize (bytes f)) as [Hlong|Hshort]; [done |].
    destruct (handleParts _ _ _ _ _ _ _ _ ps) as [calls' ending] eqn:Hrec.
    intros [= <- ->].
    destruct (IH _ _ _ _ _ _ _ Hrec)
      as (Hcalls & Hbody & Hfs & Htexts & Hall & Hroom).
    pose proof (wrappedFileFilter_passed _ _ _ Hw) as Hok.
    rewrite Nat.add_0_r.
    assert (∀ A (g : nat → file → A) (l : list file),
              imap ((λ i f, g (n + i)%nat f) ∘ S) l
              = imap (λ i f, g (S n + i)%nat f) l) as Hshift.
    { intros A g l. apply imap_ext. intros i x _. simpl.
      by rewrite Nat.add_succ_r. }
    split; [| split; [| split; [| split; [| split]]]].
    + rewrite Hcalls. f_equal.
      by rewrite (Hshift _ (λ k f, (f, filename extname (clock k)
                                         (random k) f))).
    + done.
    + rewrite Hfs.
      by rewrite (Hshift _ (λ k f, kept extname (clock k) (random k) f)).
    + done.
    + by constructor.
    + intros key. specialize (Hroom key). rewrite filter_cons.
      unfold wrappedFileFilter in Hw.
      destruct (filesLeft !! fieldname f) as [[|more]|] eqn:Hleft;
        [done | | done].
      rewrite Hok in Hw. injection Hw as <-.
      destruct (decide (fieldname f = key)) as [<-|Hne].
      * rewrite lookup_insert_eq in Hroom. rewrite Hleft.
        exact (le_n_S _ _ Hroom).
      * by rewrite lookup_insert_ne in Hroom.
Qed.

(** Text parts shorter than the limit, and file parts that are of
    accepted type, shorter than the limit, and each in a field that has
    room for one, go through. *)
Lemma handleParts_passes (ps : list item) :
  ∀ n filesLeft body fs,
    NoDup (fieldname <$> uploads {| parts := ps |}) →
    (∀ name value, Text name value ∈ ps →
       Z.of_nat (String.length value) < fieldSize) →
    (∀ f, File f ∈ ps →
       fileFilter f = Accept ∧ bytes f < fileSize
       ∧ filesLeft !! fieldname f = Some 1%nat) →
    ∃ calls body' fs',
      handleParts extname appendField clock random n filesLeft body fs ps
      = (calls, inr (body', fs')).
Proof.
  unfold uploads. simpl.
  induction ps as [|[name value|f] ps IH];
    intros n filesLeft body fs Hnodup Htexts Hall; simpl.
  - by eexists _, _, _.
  - pose proof (Htexts name value (list_elem_of_here _ _)) as Hshort.
    destruct (Z.ltb_spec fieldSize (Z.of_nat (String.length value)))
      as [Hlong|_]; [lia |].
    apply IH; [done | |].
    + intros name' value' Hin.
      by apply (Htexts name' value'), list_elem_of_further.
    + intros g Hg. by apply Hall, list_elem_of_further.
  - simpl in Hnodup. apply NoDup_cons in Hnodup as [Hfresh Hnodup].
    destruct (Hall f (list_elem_of_here _ _)) as (Hok & Hsize & Hroom).
    unfold wrappedFileFilter. rewrite Hroom, Hok.
    destruct (Z.ltb_spec fileSize (bytes f)) as [Hlong|_]; [lia |].
    edestruct (IH (S n) (<[fieldname f := 0%nat]> filesLeft) body
                 (appendFile fs {| part := f; destination := "uploads/";
                    stored_as := filename extname (clock n) (random n) f |})
                 Hnodup) as (calls & body' & fs' & ->).
    + intros name' value' Hin.
      by apply (Htexts name' value'), list_elem_of_further.
    + intros g Hg.
      destruct (Hall g (list_elem_of_further _ _ _ Hg)) as (? & ? & ?).
      repeat split; try done. rewrite lookup_insert_ne; [done |].
      intros Heq. apply Hfresh. rewrite Heq.
      apply list_elem_of_fmap_2, list_elem_of_omap. by exists (File g).
    + by eexists _, _, _.
Qed.
End UploadFacts.

Lemma one_per_field (parts : list file) :
  (∀ key, (length (filter (λ f, fieldname f = key) parts) ≤ 1)%nat) →
  NoDup (fieldname <$> parts).
Proof.
  induction parts as [|f parts IH]; intros Hone; [constructor |].
  rewrite fmap_cons. apply NoDup_cons. split.
  - intros (g & Heq & Hg)%list_elem_of_fmap.
    specialize (Hone (fieldname f)). rewrite filter_cons in Hone.
    rewrite decide_True in Hone by done. simpl in Hone.
    assert (g ∈ filter (λ f0, fieldname f0 = fieldname f) parts) as Hin
      by (by apply list_elem_of_filter).
    destruct (filter _ parts); [by apply elem_of_nil in Hin | simpl in *; lia].
  - apply IH. intros key. specialize (Hone key). rewrite filter_cons in Hone.
    destruct (decide _); simpl in *; lia.
Qed.

(** [req.files] after parts of distinct fields were appended to it. *)
Lemma appendFile_all (l : list stored) :
  ∀ fs,
    NoDup ((λ s, fieldname (part s)) <$> l) →
    (∀ s, s ∈ l → fs !! fieldname (part s) = None) →
    (∀ s, s ∈ l → foldl appendFile fs l !! fieldname (part s) = Some (s, []))
    ∧ (∀ key, (∀ s, s ∈ l → fieldname (part s) ≠ key) →
         foldl appendFile fs l !! key = fs !! key).
Proof.
  induction l as [|x l IH]; intros fs Hnodup Hfree; simpl.
  - split; [by intros s ?%elem_of_nil | done].
  - rewrite fmap_cons in Hnodup. apply NoDup_cons in Hnodup as [Hfresh Hnodup].
    assert (appendFile fs x = <[fieldname (part x) := (x, [])]> fs) as ->.
    { unfold appendFile. by rewrite (Hfree x (list_elem_of_here _ _)). }
    assert (∀ s, s ∈ l → fieldname (part s) ≠ fieldname (part x)) as Hother.
    { intros s Hs Heq. apply Hfresh. rewrite <- Heq.
      by apply (list_elem_of_fmap_2 (λ s, fieldname (part s))). }
    destruct (IH (<[fieldname (part x) := (x, [])]> fs) Hnodup) as [Hin Hout].
    { intros s Hs. rewrite lookup_insert_ne by (symmetry; by apply Hother).
      by apply Hfree, list_elem_of_further. }
    split.
    + intros s [->|Hs]%elem_of_cons; [| by apply Hin].
      rewrite Hout by done. apply lookup_insert_eq.
    + intros key Hkey. rewrite Hout.
      * rewrite lookup_insert_ne; [done |].
        apply Hkey, list_elem_of_here.
      * intros s Hs. by apply Hkey, list_elem_of_further.
Qed.

Lemma declared_room (key : string) :
  (default 0%nat (declared !! key) ≤ 1)%nat.
Proof.
  unfold declared. rewrite lookup_insert. case_decide; [simpl; lia |].
  rewrite lookup_singleton. case_decide; simpl; lia.
Qed.

Lemma declared_accepted (f : file) :
  fileFilter f = Accept → declared !! fieldname f = Some 1%nat.
Proof. by intros [[-> _]|[-> _]]%fileFilter_accept. Qed.

Lemma imap_fields (g : nat → file → stored) (parts : list file) :
  (∀ i f, part (g i f) = f) →
  (λ s, fieldname (part s)) <$> imap g parts = fieldname <$> parts.
Proof.
  revert g. induction parts as [|f parts IH]; intros g Hg; simpl; [done |].
  rewrite Hg. f_equal. apply IH. intros i f'. apply Hg.
Qed.

(** [req.body] and [req.files] after the middleware let a form through:
    the body is made of the text parts, each within the limit; the file
    parts were of distinct fields, accepted and within the limit, and
    each is stored under its field, alone. *)
Lemma upload_fields_passed (extname : string → string)
    (appendField : gmap string js → string → string → gmap string js)
    (clock random : nat → Z) (m : form) (req : request) :
  (upload_fields extname appendField clock random m).2 = inr req →
  body req = foldl (λ b nv, appendField b nv.1 nv.2) ∅ (fields m)
  ∧ Forall (λ nv, Z.of_nat (String.length nv.2) ≤ fieldSize) (fields m)
  ∧ NoDup (fieldname <$> uploads m)
  ∧ Forall (λ f, fileFilter f = Accept ∧ bytes f ≤ fileSize) (uploads m)
  ∧ files req
    = Some (foldl appendFile ∅
              (imap (λ i f, kept extname (clock i) (random i) f)
                 (uploads m))).
Proof.
  intros Hpassed. unfold upload_fields in Hpassed.
  destruct (handleParts extname appendField clock random 0 declared ∅ ∅
              (parts m)) as [calls [e|[body' fs]]] eqn:Hrun; [done |].
  simpl in Hpassed. injection Hpassed as <-. simpl.
  destruct (handleParts_passed _ _ _ _ _ _ _ _ _ _ _ _ Hrun)
    as (_ & -> & -> & Htexts & Hall & Hroom).
  destruct m as [ps]. simpl in *.
  split; [done |]. split; [done |]. split; [| by split].
  apply one_per_field. intros key. specialize (Hroom key).
  pose proof (declared_room key). lia.
Qed.

(** What is under a field of [req.files] then. *)
Lemma upload_fields_files (extname : string → string)
    (appendField : gmap string js → string → string → gmap string js)
    (clock random : nat → Z) (m : form) (req : request) :
  (upload_fields extname appendField clock random m).2 = inr req →
  ∃ uploaded,
    files req = Some uploaded
    ∧ (∀ i f, uploads m !! i = Some f →
         uploaded !! fieldname f
         = Some (kept extname (clock i) (random i) f, []))
    ∧ (∀ key, (∀ f, f ∈ uploads m → fieldname f ≠ key) →
         uploaded !! key = None).
Proof.
  intros (_ & _ & Hnodup & _ & ->)%upload_fields_passed.
  eexists. split; [done |].
  set (g := λ (i : nat) f, kept extname (clock i) (random i) f).
  destruct (appendFile_all (imap g (uploads m)) ∅) as [Hin Hout].
  { by rewrite imap_fields. }
  { intros s _. apply lookup_empty. }
  split.
  - intros i f Hi.
    apply (Hin (g i f)). apply list_elem_of_lookup. exists i.
    by rewrite list_lookup_imap, Hi.
  - intros key Hkey. rewrite Hout; [apply lookup_empty |].
    intros s (i & Hs)%list_elem_of_lookup.
    rewrite list_lookup_imap in Hs.
    destruct (uploads m !! i) as [f|] eqn:Hi; [| done].
    injection Hs as <-. simpl. apply Hkey.
    apply list_elem_of_lookup. by exists i.
Qed.

(** X7: what reaches the handler when the middleware lets a form through.
    The body is what [appendField] made of the text parts, in their
    order, and none of them is longer than 1 MiB; no two file parts came
    under the same field; every file part was accepted by [fileFilter]
    and is no longer than 10 MiB; [req.files] is there and has, under the
    field of each file part, an array of that one part, stored in
    'uploads/' under the name [storage.filename] gave at its call for the
    part; and [req.files] has nothing else. *)
Theorem upload_passed_holds (extname : string → string)
    (appendField : gmap string js → string → string → gmap string js)
    (clock random : nat → Z) (m : form) (req : request) :
  (upload_fields extname appendField clock random m).2 = inr req →
  body req = foldl (λ b nv, appendField b nv.1 nv.2) ∅ (fields m)
  ∧ (∀ name value, (name, value) ∈ fields m →
       Z.of_nat (String.length value) ≤ 1024 * 1024)
  ∧ NoDup (fieldname <$> uploads m)
  ∧ (∀ f, f ∈ uploads m →
       fileFilter f = Accept ∧ bytes f ≤ 10 * 1024 * 1024)
  ∧ ∃ uploaded,
      files req = Some uploaded
      ∧ (∀ i f, uploads m !! i = Some f →
           uploaded !! fieldname f
           = Some ({| part := f; destination := "uploads/";
                      stored_as := filename extname (clock i) (random i) f |},
                   []))
      ∧ (∀ key, (∀ f, f ∈ uploads m → fieldname f ≠ key) →
           uploaded !! key = None).
Proof.
  intros Hpassed.
  destruct (upload_fields_passed _ _ _ _ _ _ Hpassed)
    as (Hbody & Htexts & Hnodup & Hall & _).
  destruct (upload_fields_files _ _ _ _ _ _ Hpassed)
    as (uploaded & Hfiles & Hstored & Hnone).
  split; [exact Hbody |]. split; [| split; [exact Hnodup | split]].
  - intros name value Hin. rewrite Forall_forall in Htexts.
    pose proof (Htexts (name, value) Hin) as Hsize.
    unfold fieldSize in Hsize. simpl in Hsize. lia.
  - intros f Hf. rewrite Forall_forall in Hall.
    destruct (Hall f Hf) as [Hok Hsize]. split; [exact Hok |].
    unfold fileSize in Hsize. lia.
  - exists uploaded. split; [exact Hfiles |]. split; [| exact Hnone].
    intros i f Hi. exact (Hstored i f Hi).
Qed.

Lemma upload_passed_holds_witness :
  let image := {| fieldname := "image"; originalname := "me.png";
                  mimetype := "image/png"; bytes := 2048 |} in
  let m := {| parts := [Text "email" "ada@example.org"; File image] |} in
  ∃ req uploaded,
    (upload_fields (λ _, ".png") example_appendField (λ _, 1700000000000)
       (λ _, 42) m).2 = inr req
    ∧ body req = {[ "email" := JText "ada@example.org" ]}
    ∧ files req = Some uploaded
    ∧ uploaded !! "image"
      = Some ({| part := image; destination := "uploads/";
                 stored_as := "profile-1700000000000-42.png" |}, [])
    ∧ uploaded !! "cv" = None.
Proof.
  intros image m.
  destruct (upload_fields (λ _, ".png") example_appendField
              (λ _, 1700000000000) (λ _, 42) m).2
    as [e|req] eqn:Hup; [vm_compute in Hup; discriminate |].
  destruct (upload_passed_holds _ _ _ _ m req Hup)
    as (Hbody & _ & _ & _ & uploaded & Hfiles & Hstored & Hnone).
  exists req, uploaded. split; [done |]. split; [exact Hbody |].
  split; [exact Hfiles |]. split.
  - apply (Hstored 0%nat image). reflexivity.
  - apply Hnone. intros f Hf. apply list_elem_of_singleton in Hf.
    subst f. discriminate.
Defined.

(** X8: a form goes through the middleware, and its handler runs, when
    every text part has a value shorter than 1 MiB, no two of its file
    parts come under the same field, and each file part is accepted by
    [fileFilter] and shorter than 10 MiB. *)
Theorem upload_passes `{Server} `{Bcrypt} (extname : string → string)
    (appendField : gmap string js → string → string → gmap string js)
    (clock random : nat → Z) (m : form) :
  (∀ name value, (name, value) ∈ fields m →
     Z.of_nat (String.length value) < 1024 * 1024) →
  NoDup (fieldname <$> uploads m) →
  (∀ f, f ∈ uploads m → fileFilter f = Accept ∧ bytes f < 10 * 1024 * 1024) →
  ∃ req,
    (upload_fields extname appendField clock random m).2 = inr req
    ∧ ∀ w db,
        post_register extname appendField clock random w m db
        = (Answered (register w req db).1, (register w req db).2).
Proof.
  intros Htexts Hnodup Hall. destruct m as [ps].
  destruct (handleParts_passes extname appendField clock random ps 0%nat
              declared ∅ ∅ Hnodup) as (calls & body' & fs & Hrun).
  { intros name value Hin. unfold fieldSize. apply (Htexts name value).
    unfold fields. simpl. apply list_elem_of_omap.
    by exists (Text name value). }
  { intros f Hf%(uploads_parts {| parts := ps |}).
    destruct (Hall f Hf) as [Hok Hsize].
    split; [done |]. split; [unfold fileSize; lia |].
    by apply declared_accepted. }
  exists {| body := body'; files := Some fs |}.
  assert ((upload_fields extname appendField clock random {| parts := ps |}).2
          = inr {| body := body'; files := Some fs |}) as Hup.
  { unfold upload_fields. simpl. by rewrite Hrun. }
  split; [done |]. intros w db. unfold post_register. rewrite Hup.
  by destruct (register w _ db).
Qed.

Lemma upload_passes_witness :
  let image := {| fieldname := "image"; originalname := "me.png";
                  mimetype := "image/png"; bytes := 2048 |} in
  let cv := {| fieldname := "cv"; originalname := "cv.pdf";
               mimetype := "application/pdf"; bytes := 4096 |} in
  let m := {| parts := [File cv; Text "fullname" "Ada Lovelace";
                        File image] |} in
  ∃ req,
    (upload_fields (λ _, ".x") example_appendField (λ _, 1700000000000)
       (λ _, 42) m).2 = inr req
    ∧ ∀ w db,
        @post_register example_server example_bcrypt (λ _, ".x")
          example_appendField (λ _, 1700000000000) (λ _, 42) w m db
        = (Answered (@register example_server example_bcrypt w req db).1,
           (@register example_server example_bcrypt w req db).2).
Proof.
  intros image cv m.
  apply (@upload_passes example_server example_bcrypt).
  - intros name value Hin. apply list_elem_of_In in Hin. simpl in Hin.
    destruct Hin as [[= <- <-]|[]]. vm_compute. reflexivity.
  - simpl. apply NoDup_cons. split.
    + intros Hin%list_elem_of_singleton. discriminate.
    + apply NoDup_singleton.
  - intros f Hf. apply list_elem_of_In in Hf. simpl in Hf.
    destruct Hf as [<-|[<-|[]]]; split; try reflexivity.
Defined.

(** ** The names of stored files *)

Lemma append_cons (c : ascii) (s t : string) :
  String c s +:+ t = String c (s +:+ t).
Proof. reflexivity. Qed.

Lemma append_assoc (s t u : string) : (s +:+ t) +:+ u = s +:+ (t +:+ u).
Proof.
  induction s as [|c s IH]; [reflexivity |].
  by rewrite !append_cons, IH.
Qed.

Lemma append_length (s t : string) :
  String.length (s +:+ t) = (String.length s + String.length t)%nat.
Proof.
  induction s as [|c s IH]; [reflexivity |].
  rewrite append_cons. simpl. by rewrite IH.
Qed.

(** The same ending can be taken off both sides. *)
Lemma append_cancel_r (s s' e : string) : s +:+ e = s' +:+ e → s = s'.
Proof.
  revert s'. induction s as [|c s IH]; intros [|c' s'] Heq.
  - done.
  - apply (f_equal String.length) in Heq.
    rewrite !append_length in Heq. simpl in Heq. lia.
  - apply (f_equal String.length) in Heq.
    rewrite !append_length in Heq. simpl in Heq. lia.
  - rewrite !append_cons in Heq. injection Heq as -> Heq.
    f_equal. by apply IH.
Qed.

(** Two texts without '-' that are followed by '-' end at the same place. *)
Lemma dashless_split (a a' t t' : string) :
  dashless a = true → dashless a' = true →
  a +:+ "-" +:+ t = a' +:+ "-" +:+ t' → a = a' ∧ t = t'.
Proof.
  revert a'. induction a as [|c a IH]; intros [|c' a'] Ha Ha' Heq.
  - change (String "-" t = String "-" t') in Heq. by injection Heq.
  - change (String "-" t = String c' (a' +:+ "-" +:+ t')) in Heq.
    injection Heq as <- _. done.
  - change (String c (a +:+ "-" +:+ t) = String "-" t') in Heq.
    injection Heq as -> _. done.
  - rewrite !append_cons in Heq. injection Heq as -> Heq.
    simpl in Ha, Ha'. apply andb_true_iff in Ha as [_ Ha].
    apply andb_true_iff in Ha' as [_ Ha'].
    destruct (IH a' Ha Ha' Heq) as [-> ->]. done.
Qed.

Lemma pretty_N_go_dashless (x : N) :
  ∀ s, dashless s = true → dashless (pretty_N_go x s) = true.
Proof.
  induction (N.lt_wf_0 x) as [x _ IH]; intros s Hs.
  assert (x = 0 ∨ 0 < x)%N as [->|Hpos] by lia.
  - by rewrite pretty_N_go_0.
  - rewrite pretty_N_go_step by done. apply IH.
    + by apply N.div_lt.
    + simpl. rewrite Hs. unfold pretty_N_char.
      by repeat case_match.
Qed.

Lemma pretty_dashless (z : Z) : 0 ≤ z → dashless (pretty z) = true.
Proof.
  destruct z as [|p|p]; intros Hz; [done | | lia].
  unfold pretty, pretty_Z, pretty, pretty_positive, pretty, pretty_N.
  rewrite decide_False by done. by apply pretty_N_go_dashless.
Qed.

Lemma uniqueSuffix_inj (now random now' random' : Z) (e : string) :
  0 ≤ now → 0 ≤ random → 0 ≤ now' → 0 ≤ random' →
  uniqueSuffix now random +:+ e = uniqueSuffix now' random' +:+ e →
  now = now' ∧ random = random'.
Proof.
  intros Hn Hr Hn' Hr'. unfold uniqueSuffix. rewrite !append_assoc.
  intros [Hnow Hrest]%dashless_split; try by apply pretty_dashless.
  apply append_cancel_r in Hrest.
  split; by apply (inj pretty).
Qed.

(** X9: two uploads that [fileFilter] accepted and whose original names
    have the same extension are stored under the same name only when they
    came under the same field, in the same millisecond, and with the same
    random draw. *)
Theorem filename_collision (extname : string → string)
    (now random now' random' : Z) (f f' : file) :
  fileFilter f = Accept → fileFilter f' = Accept →
  0 ≤ now → 0 ≤ random → 0 ≤ now' → 0 ≤ random' →
  extname (originalname f) = extname (originalname f') →
  filename extname now random f = filename extname now' random' f' →
  fieldname f = fieldname f' ∧ now = now' ∧ random = random'.
Proof.
  intros Hf Hf' Hn Hr Hn' Hr' Hext.
  apply fileFilter_accept in Hf, Hf'. unfold filename, filename_arm.
  rewrite <- Hext.
  destruct Hf as [[-> _]|[-> _]], Hf' as [[-> _]|[-> _]]; simpl.
  - intros Heq%(inj (String.append "profile-")).
    split; [done |]. by eapply uniqueSuffix_inj.
  - intros Heq. discriminate Heq.
  - intros Heq. discriminate Heq.
  - intros Heq%(inj (String.append "cv-")).
    split; [done |]. by eapply uniqueSuffix_inj.
Qed.

Lemma filename_collision_witness :
  let f := {| fieldname := "image"; originalname := "me.png";
              mimetype := "image/png"; bytes := 2048 |} in
  filename (λ _, ".png") 1700000000000 42 f
  ≠ filename (λ _, ".png") 1700000000000 43 f.
Proof.
  intros f Heq.
  assert (0 ≤ 1700000000000) as Hnow by lia.
  assert (0 ≤ 42) as H42 by lia.
  assert (0 ≤ 43) as H43 by lia.
  destruct (filename_collision (λ _, ".png") 1700000000000 42 1700000000000
              43 f f eq_refl eq_refl Hnow H42 Hnow H43 eq_refl Heq)
    as (_ & _ & Hdraw).
  discriminate Hdraw.
Defined.

(** * More on the handlers *)

Lemma refusals_status (r : response) : r ∈ refusals → status r ≠ 201.
Proof.
  intros Hr%list_elem_of_In. simpl in Hr.
  destruct Hr as [<-|[<-|[<-|[<-|[]]]]]; done.
Qed.

(** On a body of single texts the insert is sent the texts. *)
Lemma values_sent_texts `{Server} (body : gmap string js) (hashed : string)
    (profileImage cvFile : option string) (fullname email : string)
    (age gender : option string) :
  single_texts body = true →
  values_sent (field body "fullname") (field body "email") hashed
    (field body "age") (field body "gender") profileImage cvFile
  = inr (fullname, email, age, gender) →
  field body "fullname" = JText fullname
  ∧ field body "email" = JText email
  ∧ bound (field body "age") = Some age
  ∧ bound (field body "gender") = Some gender.
Proof.
  unfold single_texts, values_sent.
  destruct (field body "fullname"); try done.
  destruct (field body "email"); try done.
  destruct (bound (field body "age")); try done.
  destruct (bound (field body "gender")); try done.
  by intros _ [= -> -> -> ->].
Qed.

Lemma single_texts_bound (body : gmap string js) :
  single_texts body = true →
  ∃ age gender,
    bound (field body "age") = Some age
    ∧ bound (field body "gender") = Some gender.
Proof.
  unfold single_texts.
  destruct (field body "fullname"); try done.
  destruct (field body "email"); try done.
  destruct (bound (field body "age")) as [age|]; try done.
  destruct (bound (field body "gender")) as [gender|]; try done.
  by exists age, gender.
Qed.

Section RegisterFacts.
Context `{Server} `{Bcrypt}.

(** Every way [register] can end: with the store as it was and one of the
    four answers that report a failure, or with 201 and one more row,
    which holds the values the insert was sent. *)
Lemma register_cases (w : moment) (req : request) (db : database) :
  ((register w req db).2 = db ∧ (register w req db).1 ∈ refusals)
  ∨ ∃ password uploaded fullname email age gender,
      js_truthy (field (body req) "fullname") = true
      ∧ js_truthy (field (body req) "email") = true
      ∧ field (body req) "password" = JText password ∧ password ≠ ""
      ∧ files req = Some uploaded
      ∧ fault w = None
      ∧ values_sent (field (body req) "fullname") (field (body req) "email")
          (bcrypt_hash password 10 (salt w)) (field (body req) "age")
          (field (body req) "gender")
          ((λ a, stored_as a.1) <$> uploaded !! "image")
          ((λ a, stored_as a.1) <$> uploaded !! "cv")
        = inr (fullname, email, age, gender)
      ∧ (∀ u, u ∈ users db → same_text (Handlers.email u) email = false)
      ∧ register w req db
        = ({| status := 201;
              json := Registered "User registered successfully"
                        (auto_increment db) |},
           {| users := users db
                ++ [ {| id := auto_increment db; fullname := fullname;
                        email := email;
                        password := bcrypt_hash password 10 (salt w);
                        age := age; gender := gender;
                        profile_image :=
                          (λ a, stored_as a.1) <$> uploaded !! "image";
                        cv_filename :=
                          (λ a, stored_as a.1) <$> uploaded !! "cv";
                        reg_date := now w |} ];
              auto_increment := auto_increment db + 1 |}).
Proof.
  assert (∀ r, In r refusals → r ∈ refusals) as Hin
    by (intros r; apply list_elem_of_In).
  destruct (js_truthy (field (body req) "fullname")) eqn:Hf;
    [| left; rewrite register_refused by auto; split;
       [done | apply Hin; simpl; tauto]].
  destruct (js_truthy (field (body req) "email")) eqn:He;
    [| left; rewrite register_refused by auto; split;
       [done | apply Hin; simpl; tauto]].
  destruct (js_truthy (field (body req) "password")) eqn:Hp;
    [| left; rewrite register_refused by auto; split;
       [done | apply Hin; simpl; tauto]].
  destruct (await_hash (field (body req) "password") 10 (salt w))
    as [hashed|] eqn:Hhash;
    [| left; rewrite register_caught by auto; split;
       [done | apply Hin; simpl; tauto]].
  destruct (files req) as [uploaded|] eqn:Hfiles;
    [| left; rewrite register_caught by auto; split;
       [done | apply Hin; simpl; tauto]].
  apply await_hash_text in Hhash as (password & Hpassword & ->).
  assert (password ≠ "") as Hpne
    by (rewrite Hpassword in Hp; by apply js_truthy_text).
  rewrite (register_sent w req db password uploaded) by done.
  unfold query_insert. destruct (fault w) as [err|] eqn:Hfault.
  { left. split; [done |]. unfold inserted.
    destruct (String.eqb _ _); apply Hin; simpl; tauto. }
  destruct (values_sent _ _ _ _ _ _ _)
    as [err|[[[fullname email] age] gender]] eqn:Hvalues.
  { left. split; [done |]. unfold inserted.
    destruct (String.eqb _ _); apply Hin; simpl; tauto. }
  unfold insert. rewrite Hfault.
  destruct (existsb _ _) eqn:Hdup;
    [left; split; [done | apply Hin; simpl; tauto] |].
  right. exists password, uploaded, fullname, email, age, gender.
  repeat split; try done.
  intros u Hu. apply not_true_is_false. intros Hsame.
  assert (existsb (λ u, same_text (Handlers.email u) email) (users db) = true)
    as Hex; [| by rewrite Hex in Hdup].
  apply existsb_exists. exists u. by rewrite <- list_elem_of_In.
Qed.

(** The [catch] arm answers exactly the requests that pass the validation
    and make [bcrypt.hash] or the read of [req.files] throw. *)
Lemma register_server_error (w : moment) (req : request) (db : database) :
  (register w req db).1 = {| status := 500; json := Error "Server error" |}
  ↔ js_truthy (field (body req) "fullname") = true
    ∧ js_truthy (field (body req) "email") = true
    ∧ js_truthy (field (body req) "password") = true
    ∧ (await_hash (field (body req) "password") 10 (salt w) = None
       ∨ files req = None).
Proof.
  split.
  - unfold register.
    destruct (js_truthy (field (body req) "fullname")); [| done].
    destruct (js_truthy (field (body req) "email")); [| done].
    destruct (js_truthy (field (body req) "password")); [| done].
    simpl. destruct (await_hash _ _ _) as [hashed|]; [| by auto].
    destruct (files req) as [uploaded|]; [| by auto].
    destruct (query_insert _ _ _ _ _ _ _ _ _) as [[err|insertId] db'];
      simpl; [| done].
    by destruct (String.eqb _ _).
  - intros (Hf & He & Hp & Hthrows). by rewrite register_caught.
Qed.

Lemma distinct_emails_snoc (rows : list user) (row : user) :
  distinct_emails rows →
  (∀ u, u ∈ rows → same_text (email u) (email row) = false) →
  distinct_emails (rows ++ [row]).
Proof.
  intros Hrows Hnew i j u v Hij Hi Hj.
  destruct (decide (j < length rows)%nat) as [Hin|Hlast].
  - rewrite lookup_app_l in Hi by lia. rewrite lookup_app_l in Hj by done.
    exact (Hrows i j u v Hij Hi Hj).
  - assert (j = length rows) as ->.
    { apply lookup_lt_Some in Hj. rewrite length_app in Hj. simpl in Hj.
      lia. }
    rewrite lookup_app_l in Hi by done.
    rewrite lookup_app_r, Nat.sub_diag in Hj by done.
    injection Hj as <-. apply Hnew. by eapply list_elem_of_lookup_2.
Qed.

(** One registration keeps what the store keeps. *)
Lemma register_keeps (w : moment) (req : request) (db : database) :
  distinct_emails (users db) → ids_fresh db →
  distinct_emails (users (register w req db).2)
  ∧ ids_fresh (register w req db).2
  ∧ users db `prefix_of` users (register w req db).2
  ∧ auto_increment db ≤ auto_increment (register w req db).2.
Proof.
  intros Hemails [Hbelow Hnodup].
  destruct (register_cases w req db)
    as [[-> _]|(password & uploaded & fullname & email & age & gender & _
                & _ & _ & _ & _ & _ & _ & Hnew & ->)].
  { by repeat split. }
  simpl. repeat split.
  - by apply distinct_emails_snoc.
  - simpl. intros u [Hu| ->%list_elem_of_singleton]%elem_of_app.
    + specialize (Hbelow u Hu). lia.
    + simpl. lia.
  - simpl. rewrite fmap_app. apply NoDup_app. repeat split; [done | |].
    + intros x (u & -> & Hu)%list_elem_of_fmap Hx. simpl in Hx.
      apply list_elem_of_singleton in Hx.
      specialize (Hbelow u Hu). lia.
    + apply NoDup_singleton.
  - by apply prefix_app_r.
  - lia.
Qed.
End RegisterFacts.

(** X10: a registration changes the store only when it answers 201.  With
    any other answer, which is the validation's 400, the [catch] arm's 500
    'Server error', 400 'Email already registered' or 500 'Database
    error', the store is as it was; and the answer is 'Server error'
    exactly when the three fields are present and either the password is
    not a text or the request has no [req.files].  With 201 the password
    was a text, [req.files] was there, the email that was sent was not
    stored yet, and the store has one more row, the last, with the id the
    answer reports, the values the insert was sent for fullname, email,
    age and gender (the submitted ones when these are single texts), the
    names of the stored files, and bcrypt's hash in place of the
    password. *)
Theorem register_appends `{Server} `{Bcrypt} (w : moment) (req : request)
    (db : database) :
  (((register w req db).2 = db
    ∧ (register w req db).1
      ∈ [ {| status := 400;
             json := Error "Full name, email, and password are required" |};
          {| status := 500; json := Error "Server error" |};
          {| status := 400; json := Error "Email already registered" |};
          {| status := 500; json := Error "Database error" |} ])
   ∨ ∃ row password uploaded,
       register w req db
       = ({| status := 201;
             json := Registered "User registered successfully" (id row) |},
          {| users := users db ++ [row];
             auto_increment := auto_increment db + 1 |})
       ∧ id row = auto_increment db
       ∧ field (body req) "password" = JText password
       ∧ Handlers.password row = bcrypt_hash password 10 (salt w)
       ∧ files req = Some uploaded
       ∧ profile_image row = (λ a, stored_as a.1) <$> uploaded !! "image"
       ∧ cv_filename row = (λ a, stored_as a.1) <$> uploaded !! "cv"
       ∧ values_sent (field (body req) "fullname")
           (field (body req) "email") (Handlers.password row)
           (field (body req) "age") (field (body req) "gender")
           (profile_image row) (cv_filename row)
         = inr (fullname row, email row, age row, gender row)
       ∧ (single_texts (body req) = true →
          field (body req) "fullname" = JText (fullname row)
          ∧ field (body req) "email" = JText (email row)
          ∧ bound (field (body req) "age") = Some (age row)
          ∧ bound (field (body req) "gender") = Some (gender row))
       ∧ (∀ u, u ∈ users db → same_text (email u) (email row) = false))
  ∧ ((register w req db).1
     = {| status := 500; json := Error "Server error" |}
     ↔ js_truthy (field (body req) "fullname") = true
       ∧ js_truthy (field (body req) "email") = true
       ∧ js_truthy (field (body req) "password") = true
       ∧ (as_text (field (body req) "password") = None ∨ files req = None)).
Proof.
  split.
  - destruct (register_cases w req db)
      as [Hsame|(password & uploaded & fullname & email & age & gender & _
                 & _ & Hp & _ & Hfiles & _ & Hvalues & Hnew & Hreg)];
      [by left | right].
    exists {| id := auto_increment db; fullname := fullname; email := email;
              password := bcrypt_hash password 10 (salt w);
              age := age; gender := gender;
              profile_image := (λ a, stored_as a.1) <$> uploaded !! "image";
              cv_filename := (λ a, stored_as a.1) <$> uploaded !! "cv";
              reg_date := now w |}, password, uploaded.
    split; [exact Hreg |]. simpl.
    split; [done |]. split; [done |]. split; [done |]. split; [done |].
    split; [done |]. split; [done |]. split; [exact Hvalues |].
    split; [| exact Hnew].
    intros Hsingle. by eapply values_sent_texts.
  - rewrite register_server_error.
    assert (await_hash (field (body req) "password") 10 (salt w) = None
            ↔ as_text (field (body req) "password") = None) as ->; [| done].
    by destruct (field (body req) "password").
Qed.

Lemma register_appends_witness :
  let posted_as_json :=
    {| body := {[ "fullname" := JText "Grace Hopper";
                  "email" := JText "grace@example.org";
                  "password" := JText "compiler" ]};
       files := None |} in
  let repeated :=
    {| body := {[ "fullname" := JText "Grace Hopper";
                  "email" := JText "grace@example.org";
                  "password" := JList [JText "compiler"; JText "cobol"] ]};
       files := Some ∅ |} in
  (@register example_server example_bcrypt example_moment posted_as_json
     one_user).1
  = {| status := 500; json := Error "Server error" |}
  ∧ (@register example_server example_bcrypt example_moment repeated
       one_user).1
    = {| status := 500; json := Error "Server error" |}.
Proof.
  intros posted_as_json repeated. split.
  - apply (proj2 (@register_appends example_server example_bcrypt
                    example_moment posted_as_json one_user)).
    split; [reflexivity |]. split; [reflexivity |]. split; [reflexivity |].
    right. reflexivity.
  - apply (proj2 (@register_appends example_server example_bcrypt
                    example_moment repeated one_user)).
    split; [reflexivity |]. split; [reflexivity |]. split; [reflexivity |].
    left. reflexivity.
Defined.

(** X11: the store keeps its emails apart and its ids fresh through any
    sequence of registration requests, whatever they hold and whatever
    fails: no two rows have the same email under the column's collation,
    no two rows have the same id, every id is below the counter, and the
    rows that were there are still the first rows, unchanged. *)
Theorem registrations_keep_store `{Server} `{Bcrypt}
    (requests : list (moment * request)) (db : database) :
  distinct_emails (users db) → ids_fresh db →
  distinct_emails (users (register_all requests db))
  ∧ ids_fresh (register_all requests db)
  ∧ users db `prefix_of` users (register_all requests db)
  ∧ auto_increment db ≤ auto_increment (register_all requests db).
Proof.
  revert db. induction requests as [|[w req] requests IH]; intros db He Hi.
  - simpl. split; [done |]. split; [done |]. split; [done | lia].
  - simpl.
    destruct (register_keeps w req db He Hi) as (He' & Hi' & Hpre & Hinc).
    destruct (IH _ He' Hi') as (He'' & Hi'' & Hpre' & Hinc').
    split; [done |]. split; [done |]. split; [by etrans | lia].
Qed.

Lemma registrations_keep_store_witness :
  let first := {| body := {[ "fullname" := JText "Ada Lovelace";
                             "email" := JText "ada@example.org";
                             "password" := JText "analytical" ]};
                  files := Some ∅ |} in
  let second := {| body := {[ "fullname" := JText "Ada King";
                              "email" := JText "ada@example.org";
                              "password" := JText "engine" ]};
                   files := Some ∅ |} in
  let third := {| body := {[ "fullname" := JText "Grace Hopper";
                             "email" := JText "grace@example.org";
                             "password" := JList [JText "a"; JText "b"] ]};
                  files := Some ∅ |} in
  let fourth := {| body := {[ "fullname" := JText "Grace Hopper";
                              "email" := JText "grace@example.org";
                              "password" := JText "compiler" ]};
                   files := None |} in
  let db := @register_all example_server example_bcrypt
              [(example_moment, first); (example_moment, second);
               (example_moment, third); (example_moment, fourth)]
              {| users := []; auto_increment := 1 |} in
  @distinct_emails example_server (users db)
  ∧ ids_fresh db
  ∧ [] `prefix_of` users db
  ∧ 1 ≤ auto_increment db.
Proof.
  intros first second third fourth db.
  apply (@registrations_keep_store example_server example_bcrypt
           [(example_moment, first); (example_moment, second);
            (example_moment, third); (example_moment, fourth)]
           {| users := []; auto_increment := 1 |}).
  - intros i j u v _ Hi. simpl in Hi. by rewrite lookup_nil in Hi.
  - split; [| constructor]. intros u Hu. simpl in Hu.
    by apply elem_of_nil in Hu.
Defined.

Section RoundTrips.
Context `{Server} `{Bcrypt}.


End RoundTrips.

(** X12: registering twice with the same email.  When a registration
    whose fields are single texts is answered 201 and the collation finds
    its email equal to itself, a second multipart request with that
    email, whose fields are single texts too and which has fullname and
    password, is answered 400 with 'Email already registered' (the store
    answering), the store is as the first registration left it, and it
    holds exactly one row with that email. *)
Theorem register_twice `{Server} `{Bcrypt} (w1 w2 : moment)
    (req1 req2 : request) (db : database)
    (email fullname2 password2 : string)
    (uploaded2 : gmap string (stored * list stored)) :
  status (register w1 req1 db).1 = 201 →
  single_texts (body req1) = true →
  body req1 !! "email" = Some (JText email) →
  same_text email email = true →
  single_texts (body req2) = true →
  body req2 !! "email" = Some (JText email) →
  body req2 !! "fullname" = Some (JText fullname2) → fullname2 ≠ "" →
  body req2 !! "password" = Some (JText password2) → password2 ≠ "" →
  files req2 = Some uploaded2 →
  fault w2 = None →
  register w2 req2 (register w1 req1 db).2
  = ({| status := 400; json := Error "Email already registered" |},
     (register w1 req1 db).2)
  ∧ length (List.filter (λ u, same_text (Handlers.email u) email)
              (users (register w1 req1 db).2)) = 1%nat.
Proof.
  intros Hcreated Hsingle1 He1%field_lookup Hrefl Hsingle2 He2 Hf2 Hfne2 Hp2
    Hpne2 Hfiles2 Hfault2.
  destruct (register_cases w1 req1 db)
    as [[_ Hnot%refusals_status]
       |(password & uploaded & fullname & email' & age & gender & _ & Hte
         & _ & _ & _ & _ & Hvalues & Hnew & Hreg)]; [done |].
  destruct (values_sent_texts _ _ _ _ _ _ _ _ Hsingle1 Hvalues)
    as (_ & He1' & _ & _).
  rewrite He1 in He1'. injection He1' as <-.
  assert (email ≠ "") as Hene
    by (rewrite He1 in Hte; by apply js_truthy_text).
  destruct (single_texts_bound _ Hsingle2) as (age2 & gender2 & Ha2 & Hg2).
  rewrite Hreg. simpl. split.
  - rewrite (register_passed w2 req2 _ fullname2 email password2 age2
               gender2 uploaded2) by done.
    rewrite insert_duplicate; [done | done |].
    eexists. split; [apply elem_of_app; right; apply list_elem_of_here |].
    done.
  - rewrite List.filter_app, filter_none by done. simpl. by rewrite Hrefl.
Qed.

Lemma register_twice_witness :
  let first := {| body := {[ "fullname" := JText "Grace Hopper";
                             "email" := JText "grace@example.org";
                             "password" := JText "compiler" ]};
                  files := Some ∅ |} in
  let second := {| body := {[ "fullname" := JText "G. Hopper";
                              "email" := JText "grace@example.org";
                              "password" := JText "cobol" ]};
                   files := Some ∅ |} in
  let db := (@register example_server example_bcrypt example_moment first
               one_user).2 in
  @register example_server example_bcrypt example_moment second db
  = ({| status := 400; json := Error "Email already registered" |}, db)
  ∧ length (List.filter
              (λ u, @same_text example_server (email u) "grace@example.org")
              (users db)) = 1%nat.
Proof.
  intros first second db.
  assert (body second !! "email" = Some (JText "grace@example.org")) as He2
    by reflexivity.
  assert (body second !! "fullname" = Some (JText "G. Hopper")) as Hf2
    by reflexivity.
  assert (body second !! "password" = Some (JText "cobol")) as Hp2
    by reflexivity.
  assert ("G. Hopper" ≠ "") as Hfne by discriminate.
  assert ("cobol" ≠ "") as Hpne by discriminate.
  exact (@register_twice example_server example_bcrypt example_moment
           example_moment first second one_user "grace@example.org"
           "G. Hopper" "cobol" ∅ eq_refl eq_refl eq_refl eq_refl eq_refl He2
           Hf2 Hfne Hp2 Hpne eq_refl eq_refl).
Defined.





(** X15: what a login answer tells.  The request gets no answer exactly
    when email and password are present, the lookup finds a row, and the
    password is not a text.  An answer has status 200, 400, 401 or 500; it
    is 400 exactly when email or password is falsy (not there, the empty
    text, null, false or 0); and it is 200 only when the password is a
    text, a stored row was found for the email (a row with that email
    under the collation, when the email is a text) and bcrypt verifies the
    password against the hash of that row, whose record without its
    password is then the answer. *)
Theorem login_answers `{Server} `{Bcrypt} (w : moment)
    (credentials : gmap string js) (db : database) :
  (login w credentials db = None
   ↔ js_truthy (field credentials "email") = true
     ∧ js_truthy (field credentials "password") = true
     ∧ as_text (field credentials "password") = None
     ∧ ∃ u others,
         query_by_email w (field credentials "email") db = inr (u :: others))
  ∧ ∀ r, login w credentials db = Some r →
      status r ∈ [200; 400; 401; 500]
      ∧ (status r = 400
         ↔ js_truthy (field credentials "email") = false
           ∨ js_truthy (field credentials "password") = false)
      ∧ (status r = 200 →
         ∃ password u,
           field credentials "password" = JText password
           ∧ u ∈ users db
           ∧ (∀ email, field credentials "email" = JText email →
                same_text (Handlers.email u) email = true)
           ∧ bcrypt_compare password (Handlers.password u) = true
           ∧ json r
             = LoggedIn "Login successful"
                 (delete "password" (object_of every_column u))).
Proof.
  assert (∀ r, In (status r) [200; 400; 401; 500] →
               status r ∈ [200; 400; 401; 500]) as Hin
    by (intros r; apply list_elem_of_In).
  destruct (js_truthy (field credentials "email")) eqn:He.
  2: { assert (login w credentials db
               = Some {| status := 400;
                         json := Error "Email and password are required" |})
         as ->.
       { unfold login. by rewrite He. }
       split; [split; [done | by intros (? & _)] |].
       intros r [= <-]. simpl.
       split; [apply list_elem_of_In; simpl; tauto |].
       split; [| done]. split; [by left | done]. }
  destruct (js_truthy (field credentials "password")) eqn:Hp.
  2: { assert (login w credentials db
               = Some {| status := 400;
                         json := Error "Email and password are required" |})
         as ->.
       { unfold login. by rewrite He, Hp. }
       split; [split; [done | by intros (_ & ? & _)] |].
       intros r [= <-]. simpl.
       split; [apply list_elem_of_In; simpl; tauto |].
       split; [| done]. split; [by right | done]. }
  rewrite (login_passed w credentials db) by done.
  destruct (query_by_email w (field credentials "email") db)
    as [err|[|u rest]] eqn:Hrows.
  { split; [split; [done | by intros (_ & _ & _ & ? & ? & ?)] |].
    intros r [= <-]. simpl.
    split; [apply list_elem_of_In; simpl; tauto |].
    split; [split; [done | by intros [?|?]] | done]. }
  { split; [split; [done | by intros (_ & _ & _ & ? & ? & ?)] |].
    intros r [= <-]. simpl.
    split; [apply list_elem_of_In; simpl; tauto |].
    split; [split; [done | by intros [?|?]] | done]. }
  pose proof (query_by_email_found w _ db u rest Hrows) as Hstored.
  destruct (await_compare (field credentials "password") (password u))
    as [passwordMatch|] eqn:Hcompare.
  2: { split; [| done]. split; [| done]. intros _.
       split; [done |]. split; [done |]. split; [| by eauto].
       by destruct (field credentials "password"). }
  apply await_compare_text in Hcompare as (password & Hpassword & ->).
  split.
  { split; [by destruct (negb _) |].
    rewrite Hpassword. by intros (_ & _ & ? & _). }
  intros r Hr.
  destruct (bcrypt_compare password (Handlers.password u)) eqn:Hmatch;
    simpl in Hr; injection Hr as <-; simpl.
  - split; [apply list_elem_of_In; simpl; tauto |].
    split; [split; [done | by intros [?|?]] |].
    intros _. exists password, u.
    split; [done |]. split; [done |]. split; [| by split].
    intros email Hemail. rewrite Hemail in Hrows. simpl in Hrows.
    unfold select_by_email in Hrows. destruct (fault w); [done |].
    injection Hrows as Hrows.
    assert (In u (List.filter (λ u, same_text (Handlers.email u) email)
                    (users db))) as Hu by (rewrite Hrows; by left).
    by apply filter_In in Hu as [_ Hu].
  - split; [apply list_elem_of_In; simpl; tauto |].
    split; [split; [done | by intros [?|?]] | done].
Qed.

Lemma login_answers_witness :
  let credentials : gmap string js :=
    {[ "email" := JText "ada@example.org";
       "password" := JText "analytical" ]} in
  let r := {| status := 200;
              json := LoggedIn "Login successful"
                        (delete "password" (object_of every_column ada)) |} in
  let unanswered : gmap string js :=
    {[ "email" := JText "ada@example.org"; "password" := JBool true ]} in
  (∃ password u,
     field credentials "password" = JText password
     ∧ u ∈ users one_user
     ∧ (∀ email, field credentials "email" = JText email →
          @same_text example_server (Handlers.email u) email = true)
     ∧ @bcrypt_compare example_bcrypt password (Handlers.password u) = true
     ∧ json r
       = LoggedIn "Login successful"
           (delete "password" (object_of every_column u)))
  ∧ @login example_server example_bcrypt example_moment unanswered one_user
    = None.
Proof.
  intros credentials r unanswered. split.
  - destruct (proj2 (@login_answers example_server example_bcrypt
                       example_moment credentials one_user) r eq_refl)
      as (_ & _ & Hfound).
    exact (Hfound eq_refl).
  - apply (proj1 (@login_answers example_server example_bcrypt
                    example_moment unanswered one_user)).
    split; [reflexivity |]. split; [reflexivity |]. split; [reflexivity |].
    by exists ada, [].
Defined.




(** X17: the route of a registration that is answered 201 records the
    uploads it stored.  The new row has in [profile_image] the name
    'profile-' + timestamp + '-' + random draw + extension that
    [storage.filename] gave the part that came under 'image', and NULL
    when no part came under 'image'; and the same in [cv_filename], with
    'cv-', for 'cv'. *)
Theorem post_register_records_files `{Server} `{Bcrypt}
    (extname : string → string)
    (appendField : gmap string js → string → string → gmap string js)
    (clock random : nat → Z) (w : moment)
    (m : form) (db db' : database) (r : response) :
  post_register extname appendField clock random w m db = (Answered r, db') →
  status r = 201 →
  ∃ row,
    users db' = users db ++ [row]
    ∧ (∀ i f, uploads m !! i = Some f → fieldname f = "image" →
         profile_image row
         = Some ("profile-" +:+ uniqueSuffix (clock i) (random i)
                   +:+ extname (originalname f)))
    ∧ ((∀ f, f ∈ uploads m → fieldname f ≠ "image") →
       profile_image row = None)
    ∧ (∀ i f, uploads m !! i = Some f → fieldname f = "cv" →
         cv_filename row
         = Some ("cv-" +:+ uniqueSuffix (clock i) (random i)
                   +:+ extname (originalname f)))
    ∧ ((∀ f, f ∈ uploads m → fieldname f ≠ "cv") → cv_filename row = None).
Proof.
  unfold post_register.
  destruct (upload_fields extname appendField clock random m).2
    as [e|req] eqn:Hup; [done |].
  destruct (upload_fields_files _ _ _ _ _ _ Hup)
    as (stored_files & Hfiles & Hstored & Hnone).
  destruct (register_cases w req db)
    as [[_ Hnot%refusals_status]
       |(password & uploaded & fullname & email & age & gender & _ & _
         & _ & _ & Huploaded & _ & _ & _ & Hreg)].
  { destruct (register w req db) as [r0 db0]. intros [= <- <-] Hcreated.
    done. }
  rewrite Hfiles in Huploaded. injection Huploaded as <-.
  rewrite Hreg. intros [= <- <-] _. eexists. split; [done |]. simpl.
  repeat split.
  - intros i f Hi Hfield. specialize (Hstored i f Hi).
    rewrite Hfield in Hstored. rewrite Hstored. simpl.
    unfold filename, filename_arm. by rewrite Hfield.
  - intros Hno. by rewrite Hnone.
  - intros i f Hi Hfield. specialize (Hstored i f Hi).
    rewrite Hfield in Hstored. rewrite Hstored. simpl.
    unfold filename, filename_arm. by rewrite Hfield.
  - intros Hno. by rewrite Hnone.
Qed.

Lemma post_register_records_files_witness :
  let cv := {| fieldname := "cv"; originalname := "grace.pdf";
               mimetype := "application/pdf"; bytes := 4096 |} in
  let m := {| parts := [Text "fullname" "Grace Hopper";
                        Text "email" "grace@example.org";
                        Text "password" "compiler"; File cv] |} in
  ∃ row,
    users (@post_register example_server example_bcrypt (λ _, ".pdf")
             example_appendField (λ _, 1700000000000) (λ _, 42)
             example_moment m one_user).2
    = users one_user ++ [row]
    ∧ profile_image row = None
    ∧ cv_filename row = Some "cv-1700000000000-42.pdf".
Proof.
  intros cv m.
  destruct (@post_register example_server example_bcrypt (λ _, ".pdf")
              example_appendField (λ _, 1700000000000) (λ _, 42)
              example_moment m one_user)
    as [[r|e] db'] eqn:Hroute; [| vm_compute in Hroute; discriminate].
  assert (status r = 201) as Hcreated.
  { vm_compute in Hroute. by injection Hroute as <- _. }
  destruct (@post_register_records_files example_server example_bcrypt
              (λ _, ".pdf") example_appendField (λ _, 1700000000000)
              (λ _, 42) example_moment m one_user db' r Hroute Hcreated)
    as (row & Hrows & _ & Himage & Hcv & _).
  exists row. split; [done |]. split.
  - apply Himage. intros f Hf. apply list_elem_of_singleton in Hf.
    subst f. discriminate.
  - apply (Hcv 0%nat cv); reflexivity.
Defined.
